(** * carvjs/telemetry: boundary generation, histogram aggregation, batcher

    A shallow embedding of [src/boundaries.ts] (boundary generation) and
    [src/batcher.ts] (the inclusive-upper-bound histogram aggregator and the
    Batcher's aggregator selection), followed by the properties of the
    specification stated and proved over it.  The descriptor patch of
    [src/patches.ts], the names of [src/names.ts], the registry of
    [src/telemetry.ts] and the facades of [src/facades.ts] are embedded
    beside them, with the properties their code shows. *)

From Stdlib Require Import ZArith QArith Qround Lqa String Ascii Sorted Permutation Lia.
From stdpp Require Import base list sorting strings gmap.

Local Open Scope Z_scope.

(** ** Host values: errors, numbers, arrays *)

Module Js.

(** Exceptions the code under study can raise: [assert] raises an
    [AssertionError] carrying its message, [create] throws a [TypeError],
    and [new Array(len)] raises a [RangeError] on an invalid length. *)
Inductive error : Type :=
| AssertionError (message : string)
| TypeError (message : string)
| RangeError (message : string).

Inductive result (A : Type) : Type :=
| Ok (a : A)
| Throw (e : error).
Arguments Ok {A} a.
Arguments Throw {A} e.

Definition bind {A B : Type} (r : result A) (k : A -> result B) : result B :=
  match r with
  | Ok a => k a
  | Throw e => Throw e
  end.

Definition assert (condition : bool) (message : string) : result unit :=
  if condition then Ok tt else Throw (AssertionError message).

(** A JavaScript [number].  Finite values are kept as exact rationals: the
    rounding of binary64 arithmetic is not modelled, the three non-finite
    values are.  Comparisons are those of the code on every number; sums and
    products are those of the code where binary64 computes them exactly, as
    it does on whole numbers while the result stays between -2^53 and
    2^53. *)
Inductive number : Type :=
| NaN
| Infinity
| NegInfinity
| Finite (q : Q).

Definition of_Z (z : Z) : number := Finite (inject_Z z).
Definition of_nat (n : nat) : number := of_Z (Z.of_nat n).

(** [is.finite] of @carv/is on a number. *)
Definition is_finite (x : number) : bool :=
  match x with
  | Finite _ => true
  | _ => false
  end.

Definition neg (x : number) : number :=
  match x with
  | NaN => NaN
  | Infinity => NegInfinity
  | NegInfinity => Infinity
  | Finite q => Finite (Qopp q)
  end.

(** [a + b] *)
Definition add (a b : number) : number :=
  match a, b with
  | NaN, _ | _, NaN => NaN
  | Infinity, NegInfinity | NegInfinity, Infinity => NaN
  | Infinity, _ | _, Infinity => Infinity
  | NegInfinity, _ | _, NegInfinity => NegInfinity
  | Finite p, Finite q => Finite (Qplus p q)
  end.

(** [a - b] *)
Definition sub (a b : number) : number := add a (neg b).

Definition scale_infinity (positive : bool) (q : Q) : number :=
  match Qcompare q 0 with
  | Eq => NaN
  | Gt => if positive then Infinity else NegInfinity
  | Lt => if positive then NegInfinity else Infinity
  end.

(** [a * b] *)
Definition mul (a b : number) : number :=
  match a, b with
  | NaN, _ | _, NaN => NaN
  | Finite p, Finite q => Finite (Qmult p q)
  | Infinity, Finite q | Finite q, Infinity => scale_infinity true q
  | NegInfinity, Finite q | Finite q, NegInfinity => scale_infinity false q
  | Infinity, Infinity | NegInfinity, NegInfinity => Infinity
  | Infinity, NegInfinity | NegInfinity, Infinity => NaN
  end.

(** [a <= b]; every comparison with [NaN] is false. *)
Definition le (a b : number) : bool :=
  match a, b with
  | NaN, _ | _, NaN => false
  | NegInfinity, _ | _, Infinity => true
  | Infinity, _ | _, NegInfinity => false
  | Finite p, Finite q => Qle_bool p q
  end.

(** [a > b] *)
Definition gt (a b : number) : bool :=
  match a, b with
  | NaN, _ | _, NaN => false
  | _, Infinity | NegInfinity, _ => false
  | Infinity, _ | _, NegInfinity => true
  | Finite p, Finite q => negb (Qle_bool p q)
  end.

(** [a < b] *)
Definition lt (a b : number) : bool := gt b a.

(** [Array.prototype.sort(compareFn)].  For a consistent comparator the
    standard fixes the result: the stable arrangement in which no element
    compares greater than a later one.  It is modelled by a stable insertion
    sort; [x] moves behind [y] exactly when [compareFn(x, y) > 0]. *)
Fixpoint sort_insert (compareFn : number -> number -> number)
    (x : number) (sorted : list number) : list number :=
  match sorted with
  | [] => [x]
  | y :: rest =>
      if gt (compareFn x y) (of_Z 0)
      then y :: sort_insert compareFn x rest
      else x :: y :: rest
  end.

Definition Array_sort (compareFn : number -> number -> number)
    (array : list number) : list number :=
  foldr (sort_insert compareFn) [] array.

(** The greatest array length, 2^32 - 1. *)
Definition max_array_length : Z := 4294967295.

(** The length [new Array(len)] accepts: a whole number from 0 to
    2^32 - 1.  Any other number raises a [RangeError]. *)
Definition array_length (len : number) : option nat :=
  match len with
  | Finite q =>
      if ((Qnum q mod Zpos (Qden q) =? 0) && (0 <=? Qnum q)
          && (Qnum q / Zpos (Qden q) <=? max_array_length))%bool
      then Some (Z.to_nat (Qnum q / Zpos (Qden q)))
      else None
  | _ => None
  end.

End Js.

Notation "'let!' x ':=' r 'in' k" := (Js.bind r (fun x => k))
  (at level 10, x name, r at level 100, k at level 200).

Import Js.

(** ** Boundary generation ([src/boundaries.ts]) *)

Module Boundaries.

Definition Boundaries : Type := list number.

(** [BoundariesConfigLinear | BoundariesConfigExponential]: one object shape
    whose optional properties are [None] when [undefined]. *)
Record BoundariesConfigObject : Type := {
  start : option number;
  count : number;
  type : option string;
  width : option number;
  factor : option number
}.

(** The primitive values JSON can print: [null], booleans, numbers and
    strings. *)
Inductive Primitive : Type :=
| PNull
| PBoolean (b : bool)
| PNumber (n : number)
| PString (s : string).

(** The values [create] can receive: the members of [BoundariesConfig] and,
    past them, the primitives that are no configuration at all. *)
Inductive BoundariesConfig : Type :=
| CUndefined
| CArray (array : Boundaries)
| CFunction (producer : unit -> BoundariesConfig)
| CObject (object : BoundariesConfigObject)
| CPrimitive (p : Primitive).

(** The third parameter of [generate]: a function, or a value on which
    [is.function] is false. *)
Inductive NextArgument : Type :=
| NotAFunction
| NextFunction (next : number -> number -> number).

Definition is_function (next : NextArgument) : bool :=
  match next with
  | NextFunction _ => true
  | NotAFunction => false
  end.

(** [is.defined] of @carv/is on an optional property. *)
Definition is_defined {A : Type} (property : option A) : bool :=
  match property with
  | Some _ => true
  | None => false
  end.

(** [property === literal] for an optional string property. *)
Definition strict_equals (property : option string) (literal : string) : bool :=
  match property with
  | Some s => String.eqb s literal
  | None => false
  end.

(** [typeof p] *)
Definition typeof (p : Primitive) : string :=
  match p with
  | PNull => "object"
  | PBoolean _ => "boolean"
  | PNumber _ => "number"
  | PString _ => "string"
  end.

(** [for (let index = 0; index < count; index++) { array[index] = value;
    value = next(value, index) }], where [remaining] is [count - index]. *)
Fixpoint generate_loop (next : number -> number -> number)
    (remaining index : nat) (value : number) : Boundaries :=
  match remaining with
  | O => []
  | S remaining' =>
      value :: generate_loop next remaining' (S index) (next value (of_nat index))
  end.

(** [generate(value, count, next)]; [new Array<number>(count)] is where an
    invalid length is refused. *)
Definition generate (value count : number) (next : NextArgument)
    : result Boundaries :=
  let! _ := assert (is_finite value) "Boundaries needs a number as start value" in
  let! _ := assert (is_finite count) "Boundaries needs a count greater than 1" in
  let! _ := assert (is_function next) "Boundaries needs a next value function" in
  match next with
  | NotAFunction => Throw (AssertionError "Boundaries needs a next value function")
  | NextFunction next =>
      match array_length count with
      | Some length => Ok (generate_loop next length 0 value)
      | None => Throw (RangeError "Invalid array length")
      end
  end.

Section WithHost.

(** [roundTo] of @carv/stdlib, called with its default precision. *)
Variable roundTo : number -> number.

(** [JSON.stringify] on a finite number and on a string. *)
Variable Number_toString : number -> string.
Variable JSON_quote : string -> string.

Definition JSON_stringify (p : Primitive) : string :=
  match p with
  | PNull => "null"
  | PBoolean true => "true"
  | PBoolean false => "false"
  | PNumber n => if is_finite n then Number_toString n else "null"
  | PString s => JSON_quote s
  end.

(** [linear(start, count, width = start)] *)
Definition linear (start count : number) (width : option number)
    : result Boundaries :=
  let width := default start width in
  let! _ := assert (gt width (of_Z 0))
              "Linear boundaries needs a width greater than 0" in
  generate start count (NextFunction (fun value _ => roundTo (add value width))).

(** [exponential(start, count, factor = 2)] *)
Definition exponential (start count : number) (factor : option number)
    : result Boundaries :=
  let factor := default (of_Z 2) factor in
  let! _ := assert (gt start (of_Z 0))
              "Exponential boundaries needs a positive start" in
  let! _ := assert (gt factor (of_Z 1))
              "Exponential boundaries needs a factor greater than 1" in
  generate start count (NextFunction (fun value _ => roundTo (mul value factor))).

(** [create(config)]; the result is [None] for [undefined]. *)
Fixpoint create (config : BoundariesConfig) : result (option Boundaries) :=
  match config with
  | CUndefined => Ok None
  | CArray array => Ok (Some array)
  | CFunction producer => create (producer tt)
  | CObject object =>
      if (strict_equals (type object) "linear" || is_defined (width object))%bool
      then
        let width := default (of_Z 1) (width object) in
        let start := default width (start object) in
        let! boundaries := linear start (count object) (Some width) in
        Ok (Some boundaries)
      else
        let start := default (of_Z 1) (start object) in
        let! boundaries := exponential start (count object) (factor object) in
        Ok (Some boundaries)
  | CPrimitive p =>
      Throw (TypeError ("Invalid bucket config (" ++ typeof p ++ "): "
                        ++ JSON_stringify p)%string)
  end.

End WithHost.

End Boundaries.

(** ** The histogram aggregator and the Batcher ([src/batcher.ts]) *)

Module Batcher.

(** [ReturnType<typeof hrTime>]: seconds and nanoseconds.  Every call of
    [hrTime()] is modelled by a clock reading passed in by the caller. *)
Definition HrTime : Type := (Z * Z)%type.

(** [Histogram] of @opentelemetry/metrics.  The counters start at 0 and
    only ever receive [+= 1], which binary64 performs exactly below 2^53;
    they are kept as natural numbers. *)
Record Buckets : Type := {
  boundaries : list number;
  counts : list nat
}.

Record Histogram : Type := {
  buckets : Buckets;
  sum : number;
  count : nat
}.

Inductive AggregatorKind : Type :=
| SUM
| LAST_VALUE
| HISTOGRAM.

Record LessThenOrEqualHistogramAggregator : Type := {
  kind : AggregatorKind;
  _boundaries : list number;
  _current : Histogram;
  _lastUpdateTime : HrTime
}.

Record Point : Type := {
  value : Histogram;
  timestamp : HrTime
}.

(** [this._boundaries.map(() => 0).concat([0])] and the zero totals. *)
Definition _newEmptyCheckpoint (_boundaries : list number) : Histogram :=
  {| buckets := {| boundaries := _boundaries;
                   counts := map (fun _ => O) _boundaries ++ [O] |};
     sum := of_Z 0;
     count := O |}.

(** [is.array(boundaries) && boundaries.length > 0]; a missing argument is
    [None]. *)
Definition is_nonempty_array (boundaries : option (list number)) : bool :=
  match boundaries with
  | Some (_ :: _) => true
  | _ => false
  end.

Definition constructor (boundaries : option (list number)) (now : HrTime)
    : result LessThenOrEqualHistogramAggregator :=
  let! _ := assert (is_nonempty_array boundaries)
              "HistogramAggregator should be created with boundaries." in
  let sorted := Array_sort (fun a b => sub a b) (default [] boundaries) in
  Ok {| kind := HISTOGRAM;
        _boundaries := sorted;
        _current := _newEmptyCheckpoint sorted;
        _lastUpdateTime := now |}.

(** [counts[i] += 1].  The slot exists whenever [counts] has one more entry
    than there are boundaries, which construction establishes and [update]
    keeps; on a missing slot the list is left as it is. *)
Definition increment (i : nat) (counts : list nat) : list nat :=
  alter S i counts.

(** The scan of [update] from index [i] on; [rest] holds the boundaries from
    [i], and the final case is the slot [this._boundaries.length]. *)
Fixpoint update_scan (value : number) (rest : list number) (i : nat)
    (counts : list nat) : list nat :=
  match rest with
  | [] => increment i counts
  | boundary :: rest' =>
      if le value boundary
      then increment i counts
      else update_scan value rest' (S i) counts
  end.

Definition update (value : number) (now : HrTime)
    (this : LessThenOrEqualHistogramAggregator)
    : LessThenOrEqualHistogramAggregator :=
  let current := _current this in
  {| kind := kind this;
     _boundaries := _boundaries this;
     _current :=
       {| buckets :=
            {| boundaries := boundaries (buckets current);
               counts := update_scan value (_boundaries this) 0
                           (counts (buckets current)) |};
          sum := add (sum current) value;
          count := S (count current) |};
     _lastUpdateTime := now |}.

(** [toPoint()] returns its point together with the aggregator it leaves
    behind. *)
Definition toPoint (this : LessThenOrEqualHistogramAggregator)
    : Point * LessThenOrEqualHistogramAggregator :=
  ({| value := _current this; timestamp := _lastUpdateTime this |}, this).

(** [MetricKind] and the part of [MetricDescriptor] that selection reads. *)
Inductive MetricKind : Type :=
| COUNTER
| UP_DOWN_COUNTER
| VALUE_RECORDER
| SUM_OBSERVER
| UP_DOWN_SUM_OBSERVER
| VALUE_OBSERVER
| BATCH_OBSERVER.

Record MetricDescriptor : Type := {
  metricKind : MetricKind;
  descriptor_boundaries : option (list number)
}.

Definition is_VALUE_RECORDER (k : MetricKind) : bool :=
  match k with
  | VALUE_RECORDER => true
  | _ => false
  end.

Section WithSdk.

(** The collaborators from @opentelemetry/metrics: the last-value
    aggregator class and [UngroupedBatcher.aggregatorFor]. *)
Variable LastValueAggregator : Type.
Variable new_LastValueAggregator : HrTime -> LastValueAggregator.
Variable SdkAggregator : Type.
Variable super_aggregatorFor : MetricDescriptor -> HrTime -> SdkAggregator.

Inductive Aggregator : Type :=
| OfHistogram (a : LessThenOrEqualHistogramAggregator)
| OfLastValue (a : LastValueAggregator)
| OfSuper (a : SdkAggregator).

Definition aggregatorFor (metricDescriptor : MetricDescriptor) (now : HrTime)
    : result Aggregator :=
  match descriptor_boundaries metricDescriptor with
  | Some array =>
      let! a := constructor (Some array) now in
      Ok (OfHistogram a)
  | None =>
      if is_VALUE_RECORDER (metricKind metricDescriptor)
      then Ok (OfLastValue (new_LastValueAggregator now))
      else Ok (OfSuper (super_aggregatorFor metricDescriptor now))
  end.

End WithSdk.

Arguments OfHistogram {LastValueAggregator SdkAggregator} a.
Arguments OfLastValue {LastValueAggregator SdkAggregator} a.
Arguments OfSuper {LastValueAggregator SdkAggregator} a.
Arguments aggregatorFor {LastValueAggregator} new_LastValueAggregator
  {SdkAggregator} super_aggregatorFor metricDescriptor now.

End Batcher.

(** ** The descriptor patch ([src/patches.ts]) *)

Module Patches.

(** [Metric.prototype._getMetricDescriptor] as replaced: [descriptor] is what
    the original method returns and [options_boundaries] is
    [this._options.boundaries].  An array, even an empty one, is truthy. *)
Definition _getMetricDescriptor (descriptor : Batcher.MetricDescriptor)
    (options_boundaries : option (list number)) : Batcher.MetricDescriptor :=
  match options_boundaries with
  | Some boundaries =>
      {| Batcher.metricKind := Batcher.metricKind descriptor;
         Batcher.descriptor_boundaries := Some boundaries |}
  | None => descriptor
  end.

End Patches.

(** ** Metric names ([src/names.ts]) *)

Module Names.

(** A part handed to [makeName]: a string, or [None] for [undefined], [null]
    and [false]. *)
Definition Part : Type := option string.

(** [Boolean(part)]: the empty string is falsy like the missing values. *)
Definition Boolean (part : Part) : bool :=
  match part with
  | Some EmptyString => false
  | Some _ => true
  | None => false
  end.

(** [parts.filter(Boolean)] *)
Fixpoint filter_Boolean (parts : list Part) : list string :=
  match parts with
  | [] => []
  | Some s :: rest =>
      if Boolean (Some s) then s :: filter_Boolean rest else filter_Boolean rest
  | None :: rest => filter_Boolean rest
  end.

(** [Array.prototype.join(separator)] on strings. *)
Fixpoint join (separator : string) (elements : list string) : string :=
  match elements with
  | [] => EmptyString
  | [s] => s
  | s :: rest => (s ++ separator ++ join separator rest)%string
  end.

Definition makeName (parts : list Part) : string :=
  join "_" (filter_Boolean parts).

Definition in_range (low high : nat) (c : ascii) : bool :=
  ((low <=? nat_of_ascii c) && (nat_of_ascii c <=? high))%nat.

(** [[a-z]] under the [i] flag. *)
Definition is_letter (c : ascii) : bool :=
  in_range 97 122 c || in_range 65 90 c.

(** [[\w_]]: letters, digits and the underscore. *)
Definition is_word (c : ascii) : bool :=
  is_letter c || in_range 48 57 c || in_range 95 95 c.

Fixpoint all_word (s : string) : bool :=
  match s with
  | EmptyString => true
  | String c rest => is_word c && all_word rest
  end.

(** [/^[a-z][\w_]*$/i.test(name)] *)
Definition test_name (name : string) : bool :=
  match name with
  | EmptyString => false
  | String c rest => is_letter c && all_word rest
  end.

Section WithJson.

(** [JSON.stringify] on a string. *)
Variable JSON_quote : string -> string.

(** [validateName(name)]; [is.string(name)] holds of every string. *)
Definition validateName (name : string) : result string :=
  let! _ := assert true "Name must be a string" in
  let! _ := assert (test_name name) ("Invalid name " ++ JSON_quote name) in
  Ok name.

End WithJson.

End Names.

(** ** The metric facades ([src/facades.ts]) *)

Module Facades.

(** [api.Labels]; a spread [{ ...a, ...b }] keeps the value of [b] on a key
    both have, and spreads nothing for [undefined]. *)
Abbreviation Labels := (gmap string string).

Definition spread (a b : option Labels) : Labels :=
  default ∅ b ∪ default ∅ a.

(** [mergeLabels(a, b)]: [a && b ? { ...a, ...b } : a || b]. *)
Definition mergeLabels (a b : option Labels) : option Labels :=
  match a, b with
  | Some _, Some _ => Some (spread a b)
  | Some _, None => a
  | None, _ => b
  end.

(** The calls a facade makes on the SDK objects it wraps.  A bound
    instrument is known by the labels it was bound with. *)
Inductive BoundMethod : Type :=
| add_method
| record_method
| update_method.

Inductive SdkCall : Type :=
| Sdk_bind (labels : Labels)
| Sdk_unbind (labels : Labels)
| Bound_call (method : BoundMethod) (bound : Labels) (value : number).

(** The three base classes, which differ in [[kUpdate]]. *)
Inductive BaseClass : Type :=
| BaseCounterMetric
| BaseValueMetric
| BaseObserverMetric.

Definition kUpdate_method (base : BaseClass) : BoundMethod :=
  match base with
  | BaseCounterMetric => add_method
  | BaseValueMetric => record_method
  | BaseObserverMetric => update_method
  end.

(** [ObservableMetric]: the [Metric] fields and the cached bound instrument;
    the delegatee is the SDK metric the calls go to. *)
Record ObservableMetric : Type := {
  base : BaseClass;
  name : string;
  kLabels : option Labels;
  kBound : option Labels
}.

(** [new this.constructor(name, delegatee, labels)] *)
Definition new_ObservableMetric (base : BaseClass) (name : string)
    (labels : option Labels) : ObservableMetric :=
  {| base := base; name := name; kLabels := labels; kBound := None |}.

Definition getLabels (this : ObservableMetric) (labels : option Labels) : Labels :=
  spread (kLabels this) labels.

(** [bind(labels)]: [labels ? this[kBind](this.getLabels(labels)) : this]. *)
Definition bind (this : ObservableMetric) (labels : option Labels)
    : ObservableMetric :=
  match labels with
  | Some _ => new_ObservableMetric (base this) (name this) (Some (getLabels this labels))
  | None => this
  end.

Definition unbind (this : ObservableMetric) (labels : option Labels)
    : list SdkCall :=
  [Sdk_unbind (getLabels this labels)].

(** A method's outcome: the returned number, the object afterwards, and the
    SDK calls made, in order. *)
Definition Outcome : Type := (number * ObservableMetric * list SdkCall)%type.

(** [update(value, labels)] *)
Definition update (this : ObservableMetric) (value : number)
    (labels : option Labels) : Outcome :=
  match labels with
  | Some _ =>
      let bound := getLabels this labels in
      (value, this, [Sdk_bind bound; Bound_call (kUpdate_method (base this)) bound value])
  | None =>
      match kBound this with
      | Some bound =>
          (value, this, [Bound_call (kUpdate_method (base this)) bound value])
      | None =>
          let bound := getLabels this None in
          (value,
           {| base := base this; name := name this; kLabels := kLabels this;
              kBound := Some bound |},
           [Sdk_bind bound; Bound_call (kUpdate_method (base this)) bound value])
      end
  end.

Definition observe (this : ObservableMetric) (value : number)
    (labels : option Labels) : Outcome :=
  update this value labels.

(** [ValueMixin] *)
Definition record (this : ObservableMetric) (value : number)
    (labels : option Labels) : Outcome :=
  update this value labels.

(** [startTimer(startLabels)(endLabels)], where [elapsed] is what the stop
    watch returns when the timer is stopped. *)
Definition startTimer (this : ObservableMetric) (startLabels : option Labels)
    (elapsed : number) (endLabels : option Labels) : Outcome :=
  update this elapsed (mergeLabels startLabels endLabels).

(** [SumMixin]: [value] defaults to 1. *)
Definition add (this : ObservableMetric) (value : option number)
    (labels : option Labels) : Outcome :=
  update this (default (of_Z 1) value) labels.

Definition inc (this : ObservableMetric) (value : option number)
    (labels : option Labels) : Outcome :=
  update this (default (of_Z 1) value) labels.

(** [UpDownSumMixin]: [this.update(value * -1, labels); return value]. *)
Definition dec (this : ObservableMetric) (value : option number)
    (labels : option Labels) : Outcome :=
  let value := default (of_Z 1) value in
  let '(_, this', calls) := update this (mul value (of_Z (-1))) labels in
  (value, this', calls).

End Facades.

(** ** The metric registry ([src/telemetry.ts]) *)

Module Telemetry.

(** The facade classes the synchronous [create...] methods instantiate. *)
Inductive FacadeClass : Type :=
| CounterMetric
| UpDownCounterMetric
| ValueRecorderMetric.

Definition base_of (class : FacadeClass) : Facades.BaseClass :=
  match class with
  | CounterMetric | UpDownCounterMetric => Facades.BaseCounterMetric
  | ValueRecorderMetric => Facades.BaseValueMetric
  end.

Record Metric : Type := {
  class : FacadeClass;
  facade : Facades.ObservableMetric
}.

(** [MetricOptions] and [ValueMetricOptions]; an option left out is [None]. *)
Record MetricOptions : Type := {
  prefix : option string;
  name : string;
  description : option string;
  unit : option string;
  labels : option Facades.Labels
}.

(** The options handed on to the SDK meter. *)
Record SdkMetricOptions : Type := {
  sdk_unit : option string;
  sdk_description : option string;
  sdk_boundaries : option (list number)
}.

(** The call a [create...] method makes on [this[kMeter]]. *)
Inductive MeterCall : Type :=
| Meter_create (class : FacadeClass) (name : string) (options : SdkMetricOptions).

(** The fields of [Telemetry] the registry works on. *)
Record Telemetry : Type := {
  kLabels : option Facades.Labels;
  kMetrics : gmap string Metric
}.

(** [new Telemetry({ labels })]: an empty registry. *)
Definition new_Telemetry (labels : option Facades.Labels) : Telemetry :=
  {| kLabels := labels; kMetrics := ∅ |}.

Definition has (this : Telemetry) (name : string) : bool :=
  bool_decide (is_Some (kMetrics this !! name)).

(** [get(name)] without a factory. *)
Definition get (this : Telemetry) (name : string) : option Metric :=
  kMetrics this !! name.

Definition getLabels (this : Telemetry) (labels : option Facades.Labels)
    : Facades.Labels :=
  Facades.spread (kLabels this) labels.

Definition makeName (parts : list Names.Part) : string := Names.makeName parts.

(** [setMetric(metrics, metric)]: [set] of @carv/stdlib stores the metric
    under its own name and returns it. *)
Definition setMetric (metrics : gmap string Metric) (metric : Metric)
    : gmap string Metric :=
  <[Facades.name (facade metric) := metric]> metrics.

(** [description = unit && `in ${unit}`]: the default of a description left
    out. *)
Definition default_description (unit : option string) : option string :=
  match unit with
  | None => None
  | Some EmptyString => Some EmptyString
  | Some u => Some ("in " ++ u)%string
  end.

Section WithHost.

Variable roundTo : number -> number.
Variable Number_toString : number -> string.
Variable JSON_quote : string -> string.

(** [Telemetry.validateName(name)] *)
Definition validateName (this : Telemetry) (name : string) : result string :=
  let! _ := Names.validateName JSON_quote name in
  let! _ := assert (negb (has this name))
              ("A metric with the name " ++ JSON_quote name
               ++ " has already been registered.") in
  Ok name.

Definition getBoundaries (config : Boundaries.BoundariesConfig)
    : result (option Boundaries.Boundaries) :=
  Boundaries.create roundTo Number_toString JSON_quote config.

(** [getOptions(telemetry, options)] *)
Definition getOptions (this : Telemetry) (options : MetricOptions)
    : result (string * Facades.Labels * SdkMetricOptions) :=
  let description :=
    match description options with
    | Some d => Some d
    | None => default_description (unit options)
    end in
  let! name := validateName this (makeName [prefix options; Some (name options)]) in
  Ok (name, getLabels this (labels options),
      {| sdk_unit := unit options; sdk_description := description;
         sdk_boundaries := None |}).

(** [getValueOptions(telemetry, { boundaries, ...options })] *)
Definition getValueOptions (this : Telemetry) (options : MetricOptions)
    (boundariesConfig : Boundaries.BoundariesConfig)
    : result (string * Facades.Labels * SdkMetricOptions) :=
  let! parsed := getOptions this options in
  let '(name, labels, metricOptions) := parsed in
  let! boundaries := getBoundaries boundariesConfig in
  Ok (name, labels,
      {| sdk_unit := sdk_unit metricOptions;
         sdk_description := sdk_description metricOptions;
         sdk_boundaries := boundaries |}).

(** What a [create...] method returns: the facade, the registry afterwards
    and the call made on the meter. *)
Definition Created : Type := (Metric * Telemetry * MeterCall)%type.

Definition register (this : Telemetry) (class : FacadeClass)
    (parsed : string * Facades.Labels * SdkMetricOptions) : Created :=
  let '(name, labels, metricOptions) := parsed in
  let metric :=
    {| class := class;
       facade := Facades.new_ObservableMetric (base_of class) name (Some labels) |} in
  (metric,
   {| kLabels := kLabels this; kMetrics := setMetric (kMetrics this) metric |},
   Meter_create class name metricOptions).

Definition createCounter (this : Telemetry) (options : MetricOptions)
    : result Created :=
  let! parsed := getOptions this options in
  Ok (register this CounterMetric parsed).

Definition createUpDownCounter (this : Telemetry) (options : MetricOptions)
    : result Created :=
  let! parsed := getOptions this options in
  Ok (register this UpDownCounterMetric parsed).

Definition createValueRecorder (this : Telemetry) (options : MetricOptions)
    (boundariesConfig : Boundaries.BoundariesConfig) : result Created :=
  let! parsed := getValueOptions this options boundariesConfig in
  Ok (register this ValueRecorderMetric parsed).

(** One of the three methods, by the class it instantiates. *)
Definition create (class : FacadeClass) (this : Telemetry)
    (options : MetricOptions) (boundariesConfig : Boundaries.BoundariesConfig)
    : result Created :=
  match class with
  | CounterMetric => createCounter this options
  | UpDownCounterMetric => createUpDownCounter this options
  | ValueRecorderMetric => createValueRecorder this options boundariesConfig
  end.

End WithHost.

End Telemetry.

Import Boundaries Batcher.

Local Close Scope Z_scope.
Local Open Scope nat_scope.

(** ** Vocabulary of the specification *)

(** The aggregators a program can hold: those built by the constructor and
    then updated any number of times. *)
Inductive reachable : LessThenOrEqualHistogramAggregator -> Prop :=
| reachable_new boundaries now this :
    constructor boundaries now = Ok this -> reachable this
| reachable_update value now this :
    reachable this -> reachable (update value now this).

(** [updates] applies a run of [update] calls, oldest first. *)
Definition updates (calls : list (number * HrTime))
    (this : LessThenOrEqualHistogramAggregator)
    : LessThenOrEqualHistogramAggregator :=
  fold_left (fun a call => update (fst call) (snd call) a) calls this.

Definition bucket_counts (this : LessThenOrEqualHistogramAggregator) : list nat :=
  counts (buckets (_current this)).

(** [i] is the slot the specification assigns to [value]: the index of the
    first boundary, in stored order, that is at least [value], and the
    overflow index when there is none. *)
Definition first_boundary_at_least (value : number) (stored : list number)
    (i : nat) : Prop :=
  (forall j b, j < i -> stored !! j = Some b -> le value b = false) /\
  ((exists b, stored !! i = Some b /\ le value b = true) \/ i = length stored).

(** Cumulative totals of a list of bucket counts, as an exporter prints the
    [le] lines. *)
Fixpoint running_totals (before : nat) (counts : list nat) : list nat :=
  match counts with
  | [] => []
  | c :: rest => (before + c) :: running_totals (before + c) rest
  end.

(** Ascending order of a stored sequence, with and without repeats. *)
Definition ascending (stored : list number) : Prop :=
  StronglySorted (fun a b => le a b = true) stored.

Definition strictly_ascending (stored : list number) : Prop :=
  StronglySorted (fun a b => lt a b = true) stored.

(** One representative for each numeric value: two finite numbers denote the
    same value exactly when their representatives coincide. *)
Definition canonical (x : number) : number :=
  match x with
  | Finite q => Finite (Qred q)
  | _ => x
  end.

Definition pairwise_distinct (array : list number) : Prop :=
  NoDup (map canonical array).

Definition all_finite (array : list number) : Prop :=
  Forall (fun x => is_finite x = true) array.

(** The configuration a chain of producer functions ends in. *)
Fixpoint resolve (config : BoundariesConfig) : BoundariesConfig :=
  match config with
  | CFunction producer => resolve (producer tt)
  | _ => config
  end.

(** [count] denotes the positive integer [n]. *)
Definition positive_integer (count : number) (n : nat) : Prop :=
  0 < n /\ exists q, count = Finite q /\ (q == inject_Z (Z.of_nat n))%Q.

(** What the specification asks of the rounding helper on the values of its
    examples: whole numbers are left as they are. *)
Definition fixes_integers (roundTo : number -> number) : Prop :=
  forall z : Z, roundTo (of_Z z) = of_Z z.

(** Rounding to [digits] decimals, half up: one function [roundTo] may be. *)
Definition round_decimals (digits : nat) (x : number) : number :=
  match x with
  | Finite q =>
      let scale := inject_Z (10 ^ Z.of_nat digits) in
      Finite (Qred (inject_Z (Qfloor (q * scale + (1 # 2))) / scale))
  | _ => x
  end.

(** The invariant between the two arrays of an aggregator. *)
Definition well_formed (this : LessThenOrEqualHistogramAggregator) : Prop :=
  length (bucket_counts this) = S (length (_boundaries this)).

(** The number of recorded calls whose value is at most [bound]. *)
Fixpoint observed_at_most (bound : number) (calls : list (number * HrTime)) : nat :=
  match calls with
  | [] => 0
  | call :: rest =>
      (if le (fst call) bound then 1 else 0) + observed_at_most bound rest
  end.

(** The whole numbers from -2^53 to 2^53.  Every one of them is a number of
    the code, and a sum or a product of two of them that stays in the range
    is computed exactly by the code, as it is here. *)
Definition safe_integer (z : Z) : Prop := (- 2 ^ 53 <= z <= 2 ^ 53)%Z.

(** The rounding helper leaves the whole numbers of that range as they are. *)
Definition fixes_safe_integers (roundTo : number -> number) : Prop :=
  forall z : Z, safe_integer z -> roundTo (of_Z z) = of_Z z.

(** The sum of a list of whole numbers. *)
Fixpoint whole_total (values : list Z) : Z :=
  match values with
  | [] => 0%Z
  | z :: rest => (z + whole_total rest)%Z
  end.

(** The outcomes the specification lists for [create]: an array or
    [undefined] returned as it is, a producer function resolved through its
    result, and the [TypeError] for every other value. *)
Definition outcome_as_listed (roundTo : number -> number)
    (Number_toString : number -> string) (JSON_quote : string -> string)
    (config : BoundariesConfig) : Prop :=
  (exists array,
      config = CArray array /\
      create roundTo Number_toString JSON_quote config = Ok (Some array)) \/
  (config = CUndefined /\
   create roundTo Number_toString JSON_quote config = Ok None) \/
  (exists producer,
      config = CFunction producer /\
      create roundTo Number_toString JSON_quote config
        = create roundTo Number_toString JSON_quote (producer tt)) \/
  (exists message,
      create roundTo Number_toString JSON_quote config = Throw (TypeError message)).

(** The boundaries [linear] and [exponential] produce on whole numbers. *)
Definition arithmetic_progression (first step : Z) (n : nat) : list number :=
  map (fun i => of_Z (first + Z.of_nat i * step)) (seq 0 n).

Definition geometric_progression (first ratio : Z) (n : nat) : list number :=
  map (fun i => of_Z (first * ratio ^ Z.of_nat i)) (seq 0 n).

(** The registries a program can hold: a new one, and what the synchronous
    [create...] methods make of it. *)
Inductive built (roundTo : number -> number) (Number_toString : number -> string)
    (JSON_quote : string -> string) : Telemetry.Telemetry -> Prop :=
| built_new labels :
    built roundTo Number_toString JSON_quote (Telemetry.new_Telemetry labels)
| built_create class this options config metric this' call :
    built roundTo Number_toString JSON_quote this ->
    Telemetry.create roundTo Number_toString JSON_quote class this options config
      = Ok (metric, this', call) ->
    built roundTo Number_toString JSON_quote this'.

(** The first value present in a list of optional values. *)
Fixpoint first_defined {A : Type} (candidates : list (option A)) : option A :=
  match candidates with
  | [] => None
  | Some a :: _ => Some a
  | None :: rest => first_defined rest
  end.

(** A run of [update(value)] calls without labels on one facade: the facade
    afterwards and the SDK calls made, in order. *)
Fixpoint updates_without_labels (this : Facades.ObservableMetric)
    (values : list number) : Facades.ObservableMetric * list Facades.SdkCall :=
  match values with
  | [] => (this, [])
  | value :: rest =>
      let '(_, this', calls) := Facades.update this value None in
      let '(final, calls') := updates_without_labels this' rest in
      (final, calls ++ calls')
  end.

(** ** Auxiliary facts *)

Lemma update_scan_slot value rest i counts :
  exists k,
    update_scan value rest i counts = increment (i + k) counts /\
    (forall j b, j < k -> rest !! j = Some b -> le value b = false) /\
    ((exists b, rest !! k = Some b /\ le value b = true) \/ k = length rest).
Proof.
  revert i. induction rest as [|b rest IH]; intros i; simpl.
  - exists 0. rewrite Nat.add_0_r. split; [reflexivity|]. split; [|by right].
    intros j b Hj. lia.
  - destruct (le value b) eqn:Hle.
    + exists 0. rewrite Nat.add_0_r. split; [reflexivity|]. split.
      * intros j b' Hj. lia.
      * left. exists b. by split.
    + destruct (IH (S i)) as (k & Heq & Hbefore & Hat).
      exists (S k). split; [rewrite Heq; f_equal; lia|]. split.
      * intros [|j] b' Hj Hlook; simpl in Hlook.
        -- congruence.
        -- apply (Hbefore j); [lia | done].
      * destruct Hat as [(b' & Hlook & Hb')| ->]; [left; by exists b' | by right].
Qed.

Lemma first_boundary_at_least_bound value stored i :
  first_boundary_at_least value stored i -> i <= length stored.
Proof.
  intros [_ [(b & Hlook & _)| ->]]; [|done].
  apply lookup_lt_Some in Hlook. lia.
Qed.

Lemma first_boundary_at_least_unique value stored i j :
  first_boundary_at_least value stored i ->
  first_boundary_at_least value stored j -> i = j.
Proof.
  intros [Hi Hi'] [Hj Hj'].
  destruct (Nat.lt_trichotomy i j) as [Hlt|[->|Hlt]]; [|done|].
  - destruct Hi' as [(b & Hlook & Hb)| ->].
    + rewrite (Hj i b Hlt Hlook) in Hb. done.
    + destruct Hj' as [(b & Hlook & _)| ->]; [|lia].
      apply lookup_lt_Some in Hlook. lia.
  - destruct Hj' as [(b & Hlook & Hb)| ->].
    + rewrite (Hi j b Hlt Hlook) in Hb. done.
    + destruct Hi' as [(b & Hlook & _)| ->]; [|lia].
      apply lookup_lt_Some in Hlook. lia.
Qed.

Lemma length_increment i counts : length (increment i counts) = length counts.
Proof. unfold increment. apply length_alter. Qed.

Lemma length_update_scan value rest i counts :
  length (update_scan value rest i counts) = length counts.
Proof.
  destruct (update_scan_slot value rest i counts) as (k & -> & _).
  apply length_increment.
Qed.

Lemma constructor_well_formed boundaries now this :
  constructor boundaries now = Ok this -> well_formed this.
Proof.
  unfold constructor. destruct (is_nonempty_array boundaries); simpl; [|done].
  intros [= <-]. unfold well_formed, bucket_counts. simpl.
  rewrite length_app, length_map. simpl. lia.
Qed.

Lemma update_well_formed value now this :
  well_formed this -> well_formed (update value now this).
Proof.
  unfold well_formed, bucket_counts. simpl. by rewrite length_update_scan.
Qed.

Lemma reachable_well_formed this : reachable this -> well_formed this.
Proof.
  induction 1; eauto using constructor_well_formed, update_well_formed.
Qed.

Lemma sum_list_increment i counts :
  i < length counts -> sum_list (increment i counts) = S (sum_list counts).
Proof.
  unfold increment. revert i.
  induction counts as [|c counts IH]; intros [|i] Hi; simpl in Hi; try lia.
  - reflexivity.
  - change (c + sum_list (alter S i counts) = S (c + sum_list counts)).
    rewrite IH; lia.
Qed.

Lemma update_slot this value now :
  well_formed this ->
  exists i c,
    first_boundary_at_least value (_boundaries this) i /\
    bucket_counts this !! i = Some c /\
    bucket_counts (update value now this) = increment i (bucket_counts this).
Proof.
  intros Hwf.
  destruct (update_scan_slot value (_boundaries this) 0 (bucket_counts this))
    as (k & Heq & Hslot).
  assert (Hk : k <= length (_boundaries this)).
  { by apply (first_boundary_at_least_bound value). }
  destruct (lookup_lt_is_Some_2 (bucket_counts this) k) as [c Hc].
  { rewrite Hwf. lia. }
  exists k, c. split; [exact Hslot|]. split; [exact Hc|exact Heq].
Qed.

Lemma updates_snoc calls call this :
  updates (calls ++ [call]) this = update (fst call) (snd call) (updates calls this).
Proof. unfold updates. by rewrite fold_left_app. Qed.

Lemma updates_well_formed calls this :
  well_formed this -> well_formed (updates calls this).
Proof.
  intros Hwf. induction calls as [|call calls IH] using rev_ind; [done|].
  rewrite updates_snoc. by apply update_well_formed.
Qed.

Lemma updates_totals calls this :
  well_formed this ->
  sum_list (bucket_counts (updates calls this))
    = sum_list (bucket_counts this) + length calls /\
  count (_current (updates calls this)) = count (_current this) + length calls.
Proof.
  intros Hwf. induction calls as [|call calls [IHs IHc]] using rev_ind.
  - simpl. lia.
  - rewrite updates_snoc, length_app. simpl.
    destruct (update_slot (updates calls this) (fst call) (snd call))
      as (i & c & _ & Hc & Heq); [by apply updates_well_formed|].
    split.
    + rewrite Heq, sum_list_increment; [lia|]. by apply lookup_lt_Some in Hc.
    + lia.
Qed.

(** *** Order of numbers and [Array_sort] *)

Lemma le_total a b : a <> NaN -> b <> NaN -> le a b = false -> le b a = true.
Proof.
  destruct a as [| | |p], b as [| | |q]; simpl; try done.
  intros _ _ H. apply Qle_bool_iff.
  destruct (Qle_bool p q) eqn:E; [done|].
  destruct (Qlt_le_dec q p) as [Hlt|Hle]; [by apply Qlt_le_weak|].
  apply Qle_bool_iff in Hle. congruence.
Qed.

Lemma le_trans a b c : le a b = true -> le b c = true -> le a c = true.
Proof.
  destruct a as [| | |p], b as [| | |q], c as [| | |r]; simpl; try done.
  rewrite !Qle_bool_iff. apply Qle_trans.
Qed.

Lemma gt_sub_zero a b :
  a <> NaN -> b <> NaN -> gt (sub a b) (of_Z 0) = negb (le a b).
Proof.
  destruct a as [| | |p], b as [| | |q]; simpl; try done.
  intros _ _. f_equal.
  destruct (Qle_bool p q) eqn:E.
  - apply Qle_bool_iff. apply Qle_bool_iff in E. unfold inject_Z. lra.
  - destruct (Qle_bool (p + - q) (inject_Z 0)) eqn:E'; [|done].
    apply Qle_bool_iff in E'. unfold inject_Z in E'.
    assert (Hle : (p <= q)%Q) by lra.
    apply Qle_bool_iff in Hle. congruence.
Qed.

Lemma lt_not_le a b : a <> NaN -> b <> NaN -> lt a b = negb (le b a).
Proof. destruct a as [| | |p], b as [| | |q]; simpl; done. Qed.

Lemma le_antisym_canonical a b :
  le a b = true -> le b a = true -> canonical a = canonical b.
Proof.
  destruct a as [| | |p], b as [| | |q]; simpl; try done.
  rewrite !Qle_bool_iff. intros H1 H2. f_equal.
  apply Qred_complete. by apply Qle_antisym.
Qed.

Lemma sort_insert_Permutation compareFn x sorted :
  Permutation (x :: sorted) (sort_insert compareFn x sorted).
Proof.
  induction sorted as [|y rest IH]; simpl; [done|].
  destruct (gt _ _); [|done].
  rewrite perm_swap. by constructor.
Qed.

Lemma Array_sort_Permutation compareFn array :
  Permutation array (Array_sort compareFn array).
Proof.
  induction array as [|x array IH]; simpl; [done|].
  rewrite <- sort_insert_Permutation. by constructor.
Qed.

Lemma sort_insert_Sorted x sorted :
  x <> NaN -> Forall (fun y => y <> NaN) sorted ->
  Sorted (fun a b => le a b = true) sorted ->
  Sorted (fun a b => le a b = true) (sort_insert (fun a b => sub a b) x sorted).
Proof.
  intros Hx Hnan Hsorted.
  induction sorted as [|y rest IH]; simpl; [by repeat constructor|].
  inversion Hnan as [|? ? Hy Hrest]; subst.
  inversion Hsorted as [|? ? Hsrest Hhd]; subst.
  rewrite gt_sub_zero by done.
  destruct (le x y) eqn:Hxy; simpl.
  - constructor; [done|]. by constructor.
  - constructor; [by apply IH|].
    destruct rest as [|z rest]; simpl.
    + constructor. by apply le_total.
    + inversion Hrest; subst. rewrite gt_sub_zero by done.
      destruct (le x z); simpl; constructor.
      * by apply le_total.
      * by inversion Hhd.
Qed.

Lemma Array_sort_ascending array :
  Forall (fun y => y <> NaN) array ->
  ascending (Array_sort (fun a b => sub a b) array).
Proof.
  intros Hnan. apply Sorted_StronglySorted.
  { intros a b c. apply le_trans. }
  induction Hnan as [|x array Hx Hnan IH]; simpl; [constructor|].
  apply sort_insert_Sorted; [done| |done].
  by rewrite <- Array_sort_Permutation.
Qed.

Lemma ascending_distinct_strictly stored :
  Forall (fun y => y <> NaN) stored ->
  ascending stored -> pairwise_distinct stored -> strictly_ascending stored.
Proof.
  unfold ascending, strictly_ascending, pairwise_distinct.
  induction stored as [|a stored IH]; intros Hnan Hasc Hdup; [constructor|].
  inversion Hnan as [|? ? Ha Hnan']; subst.
  inversion Hasc as [|? ? Hasc' Hall]; subst.
  simpl in Hdup. apply NoDup_cons in Hdup as [Hnotin Hdup].
  constructor; [by apply IH|].
  rewrite Forall_forall in Hall, Hnan'. apply Forall_forall. intros b Hb.
  rewrite lt_not_le by (try done; by apply Hnan').
  destruct (le b a) eqn:Hba; [|done].
  exfalso. apply Hnotin.
  rewrite (le_antisym_canonical a b) by (try done; by apply Hall).
  by apply list_elem_of_fmap_2.
Qed.

Lemma finite_not_NaN array :
  all_finite array -> Forall (fun y => y <> NaN) array.
Proof.
  intros Hfinite. eapply Forall_impl; [exact Hfinite|]. by intros [].
Qed.

Lemma updates_boundaries calls this :
  _boundaries (updates calls this) = _boundaries this.
Proof.
  induction calls as [|call calls IH] using rev_ind; [done|].
  by rewrite updates_snoc.
Qed.

(** ** The histogram aggregator *)

(** C1: [update] counts a value in the slot of the first stored boundary that
    is at least the value, and in the overflow slot when there is none; every
    other slot keeps its count.  With boundaries [1, 2, 4] and the updates
    1, 2, 3, 4, 5 the state has count 5, sum 15 and cumulative bucket totals
    1, 2, 4 and, with the overflow slot, 5. *)
Theorem update_counts_first_boundary_at_least :
  (forall this value now,
      reachable this ->
      exists i c,
        first_boundary_at_least value (_boundaries this) i /\
        bucket_counts this !! i = Some c /\
        bucket_counts (update value now this) !! i = Some (S c) /\
        (forall j, j <> i ->
           bucket_counts (update value now this) !! j = bucket_counts this !! j)) /\
  (forall t0 t1 t2 t3 t4 t5,
      exists this,
        constructor (Some [of_Z 1; of_Z 2; of_Z 4]) t0 = Ok this /\
        let final :=
          updates [(of_Z 1, t1); (of_Z 2, t2); (of_Z 3, t3); (of_Z 4, t4); (of_Z 5, t5)]
                  this in
        count (_current final) = 5 /\
        sum (_current final) = of_Z 15 /\
        boundaries (buckets (_current final)) = [of_Z 1; of_Z 2; of_Z 4] /\
        bucket_counts final = [1; 1; 2; 1] /\
        running_totals 0 (bucket_counts final) = [1; 2; 4; 5]) /\
  (forall input now this calls,
      all_finite input ->
      constructor (Some input) now = Ok this ->
      ascending (_boundaries (updates calls this))).
Proof.
  split; [|split].
  - intros this value now Hreach.
    destruct (update_slot this value now (reachable_well_formed _ Hreach))
      as (i & c & Hslot & Hc & Heq).
    exists i, c. rewrite Heq. unfold increment.
    split; [exact Hslot|]. split; [exact Hc|]. split.
    + by rewrite list_lookup_alter_eq, Hc.
    + intros j Hj. by apply list_lookup_alter_ne.
  - intros. eexists. split; reflexivity || (repeat split; reflexivity).
  - intros input now this calls Hfinite Hnew.
    rewrite updates_boundaries.
    unfold constructor in Hnew.
    destruct (is_nonempty_array (Some input)); simpl in Hnew; [|done].
    injection Hnew as <-. simpl.
    apply Array_sort_ascending. by apply finite_not_NaN.
Qed.

Lemma update_counts_first_boundary_at_least_witness :
  exists i c,
    first_boundary_at_least (of_Z 3)
      (_boundaries (update (of_Z 1) (1, 0)%Z
         {| kind := HISTOGRAM;
            _boundaries := [of_Z 1; of_Z 2; of_Z 4];
            _current := _newEmptyCheckpoint [of_Z 1; of_Z 2; of_Z 4];
            _lastUpdateTime := (0, 0)%Z |})) i /\
    bucket_counts (update (of_Z 1) (1, 0)%Z
         {| kind := HISTOGRAM;
            _boundaries := [of_Z 1; of_Z 2; of_Z 4];
            _current := _newEmptyCheckpoint [of_Z 1; of_Z 2; of_Z 4];
            _lastUpdateTime := (0, 0)%Z |}) !! i = Some c /\
    bucket_counts (update (of_Z 3) (2, 0)%Z (update (of_Z 1) (1, 0)%Z
         {| kind := HISTOGRAM;
            _boundaries := [of_Z 1; of_Z 2; of_Z 4];
            _current := _newEmptyCheckpoint [of_Z 1; of_Z 2; of_Z 4];
            _lastUpdateTime := (0, 0)%Z |})) !! i = Some (S c).
Proof.
  destruct (proj1 update_counts_first_boundary_at_least
              (update (of_Z 1) (1, 0)%Z
                 {| kind := HISTOGRAM;
                    _boundaries := [of_Z 1; of_Z 2; of_Z 4];
                    _current := _newEmptyCheckpoint [of_Z 1; of_Z 2; of_Z 4];
                    _lastUpdateTime := (0, 0)%Z |})
              (of_Z 3) (2, 0)%Z) as (i & c & H1 & H2 & H3 & _).
  - apply reachable_update.
    apply (reachable_new (Some [of_Z 1; of_Z 2; of_Z 4]) (0, 0)%Z).
    reflexivity.
  - exists i, c. auto.
Defined.

(** C3: after N updates of a freshly constructed aggregator the entries of
    [counts], overflow slot included, add up to N, which is also the running
    [count]; and no entry of [counts] decreases across an update. *)
Theorem counts_add_up_to_number_of_updates :
  (forall boundaries now this calls,
      constructor boundaries now = Ok this ->
      sum_list (bucket_counts (updates calls this)) = length calls /\
      count (_current (updates calls this)) = length calls) /\
  (forall this value now i c,
      reachable this ->
      bucket_counts this !! i = Some c ->
      exists c',
        bucket_counts (update value now this) !! i = Some c' /\ c <= c').
Proof.
  split.
  - intros boundaries now this calls Hnew.
    destruct (updates_totals calls this (constructor_well_formed _ _ _ Hnew))
      as [Hsum Hcount].
    rewrite Hsum, Hcount. clear Hsum Hcount.
    unfold constructor in Hnew.
    destruct (is_nonempty_array boundaries); simpl in Hnew; [|done].
    injection Hnew as <-. unfold bucket_counts. simpl.
    set (stored := Array_sort _ _). split; [|done].
    assert (Hzero : sum_list (map (fun _ : number => 0) stored ++ [0]) = 0).
    { induction stored as [|b stored IH]; [done|exact IH]. }
    rewrite Hzero. done.
  - intros this value now i c Hreach Hc.
    destruct (update_slot this value now (reachable_well_formed _ Hreach))
      as (k & ck & _ & Hck & Heq).
    rewrite Heq. unfold increment.
    destruct (decide (i = k)) as [->|Hne].
    + exists (S c). rewrite list_lookup_alter_eq, Hc. split; [done|lia].
    + exists c. rewrite list_lookup_alter_ne by done. split; [done|lia].
Qed.

Lemma counts_add_up_to_number_of_updates_witness :
  sum_list (bucket_counts
    (updates [(of_Z 7, (1, 0)%Z); (of_Z 0, (2, 0)%Z); (NaN, (3, 0)%Z)]
       {| kind := HISTOGRAM;
          _boundaries := [of_Z 1; of_Z 5];
          _current := _newEmptyCheckpoint [of_Z 1; of_Z 5];
          _lastUpdateTime := (0, 0)%Z |})) = 3.
Proof.
  apply (proj1 counts_add_up_to_number_of_updates
           (Some [of_Z 5; of_Z 1]) (0, 0)%Z _
           [(of_Z 7, (1, 0)%Z); (of_Z 0, (2, 0)%Z); (NaN, (3, 0)%Z)]).
  reflexivity.
Defined.

(** C8: [toPoint()] leaves the aggregator as it found it, so that boundaries,
    count, sum, bucket counts and last-update time are unchanged, and a second
    call with no update in between returns a point with the same value and
    the same timestamp. *)
Theorem toPoint_repeatable_and_read_only :
  forall this,
    let first := toPoint this in
    let second := toPoint (snd first) in
    snd first = this /\
    snd second = this /\
    value (fst second) = value (fst first) /\
    timestamp (fst second) = timestamp (fst first) /\
    fst second = fst first /\
    value (fst first) = _current this /\
    timestamp (fst first) = _lastUpdateTime this.
Proof. intros this. simpl. repeat split. Qed.

(** C4, as the code has it: construction from an empty or missing boundaries
    sequence fails with the assertion error; from any non-empty sequence it
    succeeds and stores a rearrangement of the input, so a non-empty one.
    When the input values are finite the stored values are finite and in
    ascending order with repeated values kept; the order is strict when the
    input values are, in addition, pairwise distinct. *)
Theorem constructor_stores_sorted_rearrangement :
  (forall now,
      constructor None now
        = Throw (AssertionError "HistogramAggregator should be created with boundaries.") /\
      constructor (Some []) now
        = Throw (AssertionError "HistogramAggregator should be created with boundaries.")) /\
  (forall input now,
      input <> [] ->
      exists this,
        constructor (Some input) now = Ok this /\
        _boundaries this <> [] /\
        Permutation input (_boundaries this) /\
        boundaries (buckets (_current this)) = _boundaries this /\
        (all_finite input ->
           all_finite (_boundaries this) /\ ascending (_boundaries this)) /\
        (all_finite input -> pairwise_distinct input ->
           strictly_ascending (_boundaries this))).
Proof.
  split; [done|].
  intros input now Hne.
  destruct input as [|x input]; [done|].
  eexists. split; [reflexivity|]. simpl _boundaries.
  set (stored := sort_insert _ _ _).
  assert (Hperm : Permutation (x :: input) stored).
  { apply (Array_sort_Permutation _ (x :: input)). }
  split; [|split; [exact Hperm|split; [done|split]]].
  - intros ->. by apply Permutation_nil_r in Hperm.
  - intros Hfinite. split.
    + unfold all_finite. by rewrite <- Hperm.
    + apply (Array_sort_ascending (x :: input)). by apply finite_not_NaN.
  - intros Hfinite Hdistinct.
    apply ascending_distinct_strictly.
    + apply finite_not_NaN. unfold all_finite. by rewrite <- Hperm.
    + apply (Array_sort_ascending (x :: input)). by apply finite_not_NaN.
    + unfold pairwise_distinct. by rewrite <- Hperm.
Qed.

Lemma constructor_stores_sorted_rearrangement_witness :
  exists this,
    constructor (Some [of_Z 4; of_Z 1; of_Z 2]) (0, 0)%Z = Ok this /\
    _boundaries this = [of_Z 1; of_Z 2; of_Z 4] /\
    Permutation [of_Z 4; of_Z 1; of_Z 2] (_boundaries this) /\
    strictly_ascending (_boundaries this).
Proof.
  destruct (proj2 constructor_stores_sorted_rearrangement
              [of_Z 4; of_Z 1; of_Z 2] (0, 0)%Z)
    as (this & Hnew & _ & Hperm & _ & _ & Hstrict); [done|].
  exists this. split; [exact Hnew|]. split; [|split; [exact Hperm|]].
  - injection Hnew as <-. reflexivity.
  - apply Hstrict.
    + repeat constructor.
    + unfold pairwise_distinct. vm_compute.
      repeat (apply NoDup_cons_2;
              [intros H; repeat (apply elem_of_cons in H as [H|H]; [discriminate H|]);
               by apply elem_of_nil in H|]).
      apply NoDup_nil_2.
Defined.

(** C4 as stated fails on a repeated boundary: [1, 1] is accepted and stored
    as [1, 1], which is not strictly ascending. *)
Lemma constructor_keeps_repeated_boundaries :
  exists this,
    constructor (Some [of_Z 1; of_Z 1]) (0, 0)%Z = Ok this /\
    all_finite [of_Z 1; of_Z 1] /\
    _boundaries this = [of_Z 1; of_Z 1] /\
    ~ strictly_ascending (_boundaries this).
Proof.
  eexists. split; [reflexivity|]. split; [by repeat constructor|].
  split; [reflexivity|]. simpl. intros Hstrict.
  inversion Hstrict as [|? ? _ Hall]; subst.
  inversion Hall as [|? ? Hlt _]; subst. discriminate Hlt.
Qed.

(** ** The Batcher *)

(** C2: [aggregatorFor] first looks for a boundaries array on the descriptor
    and then builds the histogram aggregator from it; failing that, a value
    recorder gets a last-value aggregator; every other descriptor goes to the
    inherited selection. *)
Theorem aggregatorFor_selection_order :
  forall (LastValueAggregator SdkAggregator : Type)
         (new_LastValueAggregator : HrTime -> LastValueAggregator)
         (super_aggregatorFor : MetricDescriptor -> HrTime -> SdkAggregator)
         metricDescriptor now,
    (forall array,
        descriptor_boundaries metricDescriptor = Some array ->
        aggregatorFor new_LastValueAggregator super_aggregatorFor metricDescriptor now
          = (let! a := constructor (Some array) now in Ok (OfHistogram a))) /\
    (descriptor_boundaries metricDescriptor = None ->
     metricKind metricDescriptor = VALUE_RECORDER ->
     aggregatorFor new_LastValueAggregator super_aggregatorFor metricDescriptor now
       = Ok (OfLastValue (new_LastValueAggregator now))) /\
    (descriptor_boundaries metricDescriptor = None ->
     metricKind metricDescriptor <> VALUE_RECORDER ->
     aggregatorFor new_LastValueAggregator super_aggregatorFor metricDescriptor now
       = Ok (OfSuper (super_aggregatorFor metricDescriptor now))).
Proof.
  intros LVA SdkA new_LVA super [k b] now. unfold aggregatorFor. simpl.
  split; [|split].
  - by intros array ->.
  - by intros -> ->.
  - intros -> Hk. by destruct k.
Qed.

(** C10: a descriptor whose boundaries are the empty array still takes the
    histogram branch, whatever its kind, and creation fails with the
    constructor's assertion error; there is no fallback. *)
Theorem aggregatorFor_empty_boundaries_fails :
  forall (LastValueAggregator SdkAggregator : Type)
         (new_LastValueAggregator : HrTime -> LastValueAggregator)
         (super_aggregatorFor : MetricDescriptor -> HrTime -> SdkAggregator)
         kind now,
    aggregatorFor new_LastValueAggregator super_aggregatorFor
      {| metricKind := kind; descriptor_boundaries := Some [] |} now
      = Throw (AssertionError "HistogramAggregator should be created with boundaries.").
Proof. reflexivity. Qed.

Lemma aggregatorFor_selection_order_witness :
  (exists this,
      aggregatorFor (fun _ => tt) (fun _ _ => tt)
        {| metricKind := VALUE_RECORDER;
           descriptor_boundaries := Some [of_Z 2; of_Z 1] |} (0, 0)%Z
        = Ok (OfHistogram this) /\
      _boundaries this = [of_Z 1; of_Z 2]) /\
  aggregatorFor (fun _ => tt) (fun _ _ => tt)
    {| metricKind := VALUE_RECORDER; descriptor_boundaries := None |} (0, 0)%Z
    = Ok (OfLastValue tt) /\
  aggregatorFor (fun _ => tt) (fun _ _ => tt)
    {| metricKind := COUNTER; descriptor_boundaries := None |} (0, 0)%Z
    = Ok (OfSuper tt).
Proof.
  split; [|split].
  - eexists. split.
    + rewrite (proj1 (aggregatorFor_selection_order unit unit (fun _ => tt) (fun _ _ => tt)
                        {| metricKind := VALUE_RECORDER;
                           descriptor_boundaries := Some [of_Z 2; of_Z 1] |} (0, 0)%Z)
                 [of_Z 2; of_Z 1] eq_refl).
      reflexivity.
    + reflexivity.
  - apply (aggregatorFor_selection_order unit unit (fun _ => tt) (fun _ _ => tt)
             {| metricKind := VALUE_RECORDER; descriptor_boundaries := None |});
      reflexivity.
  - apply (aggregatorFor_selection_order unit unit (fun _ => tt) (fun _ _ => tt)
             {| metricKind := COUNTER; descriptor_boundaries := None |});
      [reflexivity | discriminate].
Defined.


(** ** Boundary generation *)

Lemma array_length_integer q n :
  (Z.of_nat n <= max_array_length)%Z ->
  (q == inject_Z (Z.of_nat n))%Q -> array_length (Finite q) = Some n.
Proof.
  intros Hmax. destruct q as [a d]. unfold Qeq, inject_Z, array_length. simpl.
  rewrite Z.mul_1_r. intros ->.
  rewrite Z_mod_mult, Z_div_mult by lia.
  replace (0 <=? Z.of_nat n * Z.pos d)%Z with true by (symmetry; apply Z.leb_le; lia).
  replace (Z.of_nat n <=? max_array_length)%Z with true
    by (symmetry; by apply Z.leb_le).
  simpl. by rewrite Nat2Z.id.
Qed.

Lemma length_generate_loop next n index value :
  length (generate_loop next n index value) = n.
Proof.
  revert index value. induction n as [|n IH]; intros index value; simpl; [done|].
  by rewrite IH.
Qed.

Lemma generate_loop_head next n index value :
  0 < n -> generate_loop next n index value !! 0 = Some value.
Proof. destruct n; [lia|done]. Qed.

Lemma generate_loop_step next n index value i x :
  S i < n ->
  generate_loop next n index value !! i = Some x ->
  generate_loop next n index value !! S i = Some (next x (of_nat (index + i))).
Proof.
  revert index value i. induction n as [|n IH]; intros index value i Hi; [lia|].
  destruct i as [|i]; simpl.
  - intros [= ->]. destruct n as [|n]; [lia|]. simpl. by rewrite Nat.add_0_r.
  - intros Hx. replace (index + S i) with (S index + i) by lia.
    apply (IH (S index)); [lia|exact Hx].
Qed.

Lemma generate_runs_loop start count n next :
  is_finite start = true ->
  (Z.of_nat n <= max_array_length)%Z ->
  (exists q, count = Finite q /\ (q == inject_Z (Z.of_nat n))%Q) ->
  generate start count (NextFunction next) = Ok (generate_loop next n 0 start).
Proof.
  intros Hstart Hmax (q & -> & Hq). unfold generate. rewrite Hstart.
  cbn [assert bind is_finite is_function].
  by rewrite (array_length_integer q n).
Qed.

(** C6, as the code has it: for a finite [start], a positive integer
    [count] of at most 2^32 - 1, the greatest length of an array, and a
    function [next], [generate] returns a sequence of length [count] whose
    element 0 is [start] and whose element [i + 1] is [next] applied to
    element [i] and [i], for every [i] below [count - 1]. *)
Theorem generate_sequence :
  forall start count n next,
    is_finite start = true ->
    positive_integer count n ->
    (Z.of_nat n <= max_array_length)%Z ->
    exists array,
      generate start count (NextFunction next) = Ok array /\
      length array = n /\
      array !! 0 = Some start /\
      (forall i x,
          S i < n -> array !! i = Some x ->
          array !! S i = Some (next x (of_nat i))).
Proof.
  intros start count n next Hstart [Hn Hcount] Hmax.
  exists (generate_loop next n 0 start).
  split; [by apply generate_runs_loop|].
  split; [apply length_generate_loop|].
  split; [by apply generate_loop_head|].
  intros i x Hi Hx. by apply (generate_loop_step next n 0 start i x).
Qed.

Lemma generate_sequence_witness :
  exists array,
    generate (of_Z 3) (Finite (8 # 2)) (NextFunction (fun value index => add value index))
      = Ok array /\
    length array = 4 /\
    array = [of_Z 3; of_Z 3; of_Z 4; of_Z 6].
Proof.
  destruct (generate_sequence (of_Z 3) (Finite (8 # 2)) 4
              (fun value index => add value index)) as (array & Hgen & Hlen & _).
  - reflexivity.
  - split; [lia|]. exists (8 # 2). split; reflexivity.
  - unfold max_array_length. lia.
  - exists array. split; [exact Hgen|]. split; [exact Hlen|].
    injection Hgen as <-. reflexivity.
Defined.

(** C6 as stated fails on a count above the greatest array length: 2^32 is
    a positive finite integer, the start is finite and [next] is a function,
    and [generate] raises the [RangeError] of the array allocation. *)
Lemma generate_refuses_count_above_array_limit :
  is_finite (of_Z 1) = true /\
  (exists q, of_Z 4294967296 = Finite q /\ (q == inject_Z 4294967296)%Q) /\
  generate (of_Z 1) (of_Z 4294967296) (NextFunction (fun value _ => value))
    = Throw (RangeError "Invalid array length").
Proof.
  split; [reflexivity|]. split; [|reflexivity].
  eexists. split; [reflexivity|]. apply Qeq_refl.
Qed.

(** C5, the failing input: [generate] checks only that [count] is finite, so
    a count of zero passes every assertion and the empty sequence is
    returned; a negative or fractional count passes them too and is stopped
    only by the array allocation.  A non-finite [start] or [count] and a
    [next] that is no function do fail their assertions. *)
Theorem generate_accepts_zero_count :
  (forall next,
      generate (of_Z 1) (of_Z 0) (NextFunction next) = Ok []) /\
  (forall next,
      generate (of_Z 1) (of_Z (-1)) (NextFunction next)
        = Throw (RangeError "Invalid array length")) /\
  (forall next,
      generate (of_Z 1) (Finite (5 # 2)) (NextFunction next)
        = Throw (RangeError "Invalid array length")) /\
  (forall start count next,
      is_finite start = false ->
      generate start count next
        = Throw (AssertionError "Boundaries needs a number as start value")) /\
  (forall start count next,
      is_finite start = true -> is_finite count = false ->
      generate start count next
        = Throw (AssertionError "Boundaries needs a count greater than 1")) /\
  (forall start count,
      is_finite start = true -> is_finite count = true ->
      generate start count NotAFunction
        = Throw (AssertionError "Boundaries needs a next value function")).
Proof.
  repeat split; try reflexivity.
  - intros start count next Hstart. unfold generate. by rewrite Hstart.
  - intros start count next Hstart Hcount. unfold generate.
    by rewrite Hstart, Hcount.
  - intros start count Hstart Hcount. unfold generate.
    by rewrite Hstart, Hcount.
Qed.

Lemma generate_accepts_zero_count_witness :
  generate Infinity (of_Z 3) (NextFunction (fun value _ => value))
    = Throw (AssertionError "Boundaries needs a number as start value") /\
  generate (of_Z 1) NaN (NextFunction (fun value _ => value))
    = Throw (AssertionError "Boundaries needs a count greater than 1") /\
  generate (of_Z 1) (of_Z 3) NotAFunction
    = Throw (AssertionError "Boundaries needs a next value function").
Proof.
  destruct generate_accepts_zero_count as (_ & _ & _ & Hstart & Hcount & Hnext).
  split; [|split].
  - by apply Hstart.
  - by apply Hcount.
  - by apply Hnext.
Defined.

Lemma create_resolve roundTo Number_toString JSON_quote config :
  create roundTo Number_toString JSON_quote config
    = create roundTo Number_toString JSON_quote (resolve config).
Proof. induction config as [|array|producer IH|object|p]; simpl; auto. Qed.

Lemma resolve_shape config :
  resolve config = CUndefined \/
  (exists array, resolve config = CArray array) \/
  (exists object, resolve config = CObject object) \/
  (exists p, resolve config = CPrimitive p).
Proof.
  induction config as [|array|producer IH|object|p]; simpl; eauto 6.
Qed.

(** C7, as the code has it: [create] returns an explicit array and
    [undefined] as they are, resolves a producer function by applying
    [create] to the function's result, returns on a descriptor object what
    [linear] or [exponential] returns, and throws the [TypeError] naming the
    value's type and JSON text on every other value: [object] and [null] on
    [null], [boolean] and [true] or [false] on a boolean, [number] and the
    number's text on a number ([null] when it is not finite), [string] and
    the quoted string on a string.  No configuration falls outside these
    cases. *)
Theorem create_outcomes :
  forall roundTo Number_toString JSON_quote,
    let create := create roundTo Number_toString JSON_quote in
    (forall array, create (CArray array) = Ok (Some array)) /\
    create CUndefined = Ok None /\
    (forall producer, create (CFunction producer) = create (producer tt)) /\
    create (CFunction (fun _ => CArray [Finite (1 # 10); of_Z 1; of_Z 2]))
      = Ok (Some [Finite (1 # 10); of_Z 1; of_Z 2]) /\
    (forall object,
        create (CObject object)
          = if (strict_equals (type object) "linear" || is_defined (width object))%bool
            then
              let! boundaries :=
                linear roundTo
                  (default (default (of_Z 1) (width object)) (start object))
                  (Boundaries.count object)
                  (Some (default (of_Z 1) (width object))) in
              Ok (Some boundaries)
            else
              let! boundaries :=
                exponential roundTo (default (of_Z 1) (start object))
                  (Boundaries.count object) (factor object) in
              Ok (Some boundaries)) /\
    create (CPrimitive PNull)
      = Throw (TypeError "Invalid bucket config (object): null") /\
    create (CPrimitive (PBoolean true))
      = Throw (TypeError "Invalid bucket config (boolean): true") /\
    create (CPrimitive (PBoolean false))
      = Throw (TypeError "Invalid bucket config (boolean): false") /\
    (forall q,
        create (CPrimitive (PNumber (Finite q)))
          = Throw (TypeError ("Invalid bucket config (number): "
                              ++ Number_toString (Finite q)))) /\
    create (CPrimitive (PNumber NaN))
      = Throw (TypeError "Invalid bucket config (number): null") /\
    create (CPrimitive (PNumber Infinity))
      = Throw (TypeError "Invalid bucket config (number): null") /\
    create (CPrimitive (PNumber NegInfinity))
      = Throw (TypeError "Invalid bucket config (number): null") /\
    (forall s,
        create (CPrimitive (PString s))
          = Throw (TypeError ("Invalid bucket config (string): " ++ JSON_quote s))) /\
    (forall config,
        (resolve config = CUndefined /\ create config = Ok None) \/
        (exists array,
            resolve config = CArray array /\ create config = Ok (Some array)) \/
        (exists p,
            resolve config = CPrimitive p /\
            create config
              = Throw (TypeError ("Invalid bucket config (" ++ typeof p ++ "): "
                                  ++ JSON_stringify Number_toString JSON_quote p))) \/
        (exists object,
            resolve config = CObject object /\
            create config = create (CObject object))).
Proof.
  intros roundTo Number_toString JSON_quote create.
  repeat (split; [reflexivity || (intros; reflexivity)|]).
  intros config. unfold create. rewrite create_resolve.
  destruct (resolve_shape config)
    as [->|[(array & ->)|[(object & ->)|(p & ->)]]].
  - by left.
  - right; left. by exists array.
  - right; right; right. by exists object.
  - right; right; left. by exists p.
Qed.

(** C7 as stated fails on a descriptor object: [create({ count: 5 })] is
    none of the listed outcomes, it returns the generated boundaries
    [1, 2, 4, 8, 16]. *)
Lemma create_descriptor_object_is_not_listed :
  create (round_decimals 2) (fun _ => EmptyString) (fun s => s)
    (CObject {| start := None; Boundaries.count := of_Z 5; type := None;
                width := None; factor := None |})
    = Ok (Some [of_Z 1; of_Z 2; of_Z 4; of_Z 8; of_Z 16]) /\
  ~ outcome_as_listed (round_decimals 2) (fun _ => EmptyString) (fun s => s)
      (CObject {| start := None; Boundaries.count := of_Z 5; type := None;
                  width := None; factor := None |}).
Proof.
  split; [reflexivity|].
  intros [(array & Hshape & _)|[[Hshape _]|[(producer & Hshape & _)|(message & Hthrow)]]];
    discriminate.
Qed.

Lemma add_of_Z a b : add (of_Z a) (of_Z b) = of_Z (a + b).
Proof.
  unfold of_Z, add, inject_Z, Qplus. simpl. by rewrite !Z.mul_1_r.
Qed.

Lemma mul_of_Z a b : mul (of_Z a) (of_Z b) = of_Z (a * b).
Proof. reflexivity. Qed.

Lemma round_decimals_fixes_integers digits : fixes_integers (round_decimals digits).
Proof.
  intros z. unfold round_decimals, of_Z. f_equal.
  set (s := (10 ^ Z.of_nat digits)%Z).
  assert (Hs : (0 < s)%Z) by (apply Z.pow_pos_nonneg; lia).
  assert (Hfloor : Qfloor (inject_Z z * inject_Z s + (1 # 2)) = (z * s)%Z).
  { unfold inject_Z, Qmult, Qplus, Qfloor. simpl.
    rewrite !Z.mul_1_r. symmetry. apply Z.div_unique with (r := 1%Z); lia. }
  rewrite Hfloor.
  assert (Heq : (inject_Z (z * s) / inject_Z s == inject_Z z)%Q).
  { rewrite inject_Z_mult. field. unfold Qeq, inject_Z. simpl. lia. }
  rewrite (Qred_complete _ _ Heq).
  apply Qcanon.Qred_identity. apply Z.gcd_1_r.
Qed.

Lemma generate_of_nat start n next :
  (Z.of_nat n <= max_array_length)%Z ->
  generate (of_Z start) (of_Z (Z.of_nat n)) (NextFunction next)
    = Ok (generate_loop next n 0 (of_Z start)).
Proof.
  intros Hmax. apply generate_runs_loop; [done|done|].
  eexists. split; [done|]. apply Qeq_refl.
Qed.

Ltac run_generate fixed :=
  rewrite generate_of_nat by (unfold max_array_length; lia);
  cbn [generate_loop];
  repeat (first [rewrite add_of_Z | rewrite mul_of_Z]; rewrite fixed);
  reflexivity.

(** C9: on the examples of the specification, with a rounding helper that
    leaves whole numbers as they are: [linear(2, 3)] is [2, 4, 6];
    [linear(2, 5, 3)] is [2, 5, 8, 11, 14]; [exponential(2, 3)] is [2, 4, 8];
    [exponential(2, 5, 3)] is [2, 6, 18, 54, 162];
    [create({ count: 5, type: 'linear' })] is [1, 2, 3, 4, 5]; and
    [create({ count: 5 })] is [1, 2, 4, 8, 16]. *)
Theorem boundary_generation_examples :
  forall roundTo Number_toString JSON_quote,
    fixes_integers roundTo ->
    linear roundTo (of_Z 2) (of_Z 3) None
      = Ok [of_Z 2; of_Z 4; of_Z 6] /\
    linear roundTo (of_Z 2) (of_Z 5) (Some (of_Z 3))
      = Ok [of_Z 2; of_Z 5; of_Z 8; of_Z 11; of_Z 14] /\
    exponential roundTo (of_Z 2) (of_Z 3) None
      = Ok [of_Z 2; of_Z 4; of_Z 8] /\
    exponential roundTo (of_Z 2) (of_Z 5) (Some (of_Z 3))
      = Ok [of_Z 2; of_Z 6; of_Z 18; of_Z 54; of_Z 162] /\
    create roundTo Number_toString JSON_quote
      (CObject {| start := None; Boundaries.count := of_Z 5; type := Some "linear"%string;
                  width := None; factor := None |})
      = Ok (Some [of_Z 1; of_Z 2; of_Z 3; of_Z 4; of_Z 5]) /\
    create roundTo Number_toString JSON_quote
      (CObject {| start := None; Boundaries.count := of_Z 5; type := None;
                  width := None; factor := None |})
      = Ok (Some [of_Z 1; of_Z 2; of_Z 4; of_Z 8; of_Z 16]).
Proof.
  intros roundTo Number_toString JSON_quote Hfixed.
  repeat split.
  - change (linear roundTo (of_Z 2) (of_Z 3) None)
      with (generate (of_Z 2) (of_Z (Z.of_nat 3))
              (NextFunction (fun value _ => roundTo (add value (of_Z 2))))).
    run_generate Hfixed.
  - change (linear roundTo (of_Z 2) (of_Z 5) (Some (of_Z 3)))
      with (generate (of_Z 2) (of_Z (Z.of_nat 5))
              (NextFunction (fun value _ => roundTo (add value (of_Z 3))))).
    run_generate Hfixed.
  - change (exponential roundTo (of_Z 2) (of_Z 3) None)
      with (generate (of_Z 2) (of_Z (Z.of_nat 3))
              (NextFunction (fun value _ => roundTo (mul value (of_Z 2))))).
    run_generate Hfixed.
  - change (exponential roundTo (of_Z 2) (of_Z 5) (Some (of_Z 3)))
      with (generate (of_Z 2) (of_Z (Z.of_nat 5))
              (NextFunction (fun value _ => roundTo (mul value (of_Z 3))))).
    run_generate Hfixed.
  - change (create _ _ _ _)
      with (let! boundaries :=
              generate (of_Z 1) (of_Z (Z.of_nat 5))
                (NextFunction (fun value _ => roundTo (add value (of_Z 1)))) in
            Ok (Some boundaries)).
    change (Ok (Some ?l)) with (let! b := Ok l in Ok (Some b)).
    f_equal. run_generate Hfixed.
  - change (create _ _ _ _)
      with (let! boundaries :=
              generate (of_Z 1) (of_Z (Z.of_nat 5))
                (NextFunction (fun value _ => roundTo (mul value (of_Z 2)))) in
            Ok (Some boundaries)).
    change (Ok (Some ?l)) with (let! b := Ok l in Ok (Some b)).
    f_equal. run_generate Hfixed.
Qed.

Lemma boundary_generation_examples_witness :
  linear (round_decimals 2) (of_Z 2) (of_Z 5) (Some (of_Z 3))
    = Ok [of_Z 2; of_Z 5; of_Z 8; of_Z 11; of_Z 14] /\
  exponential (round_decimals 2) (of_Z 2) (of_Z 5) (Some (of_Z 3))
    = Ok [of_Z 2; of_Z 6; of_Z 18; of_Z 54; of_Z 162].
Proof.
  destruct (boundary_generation_examples (round_decimals 2)
              (fun _ => EmptyString) (fun s => s)
              (round_decimals_fixes_integers 2))
    as (_ & Hlinear & _ & Hexponential & _).
  split; [exact Hlinear | exact Hexponential].
Defined.

(** ** Further properties of the aggregator *)

Lemma observed_at_most_snoc bound calls call :
  observed_at_most bound (calls ++ [call])
    = observed_at_most bound calls + (if le (fst call) bound then 1 else 0).
Proof.
  induction calls as [|c calls IH]; simpl; [lia|]. rewrite IH. lia.
Qed.

Lemma running_totals_lookup before counts i :
  i < length counts ->
  running_totals before counts !! i = Some (before + sum_list (take (S i) counts)).
Proof.
  revert before i. induction counts as [|c counts IH]; intros before i Hi; simpl in Hi.
  - lia.
  - destruct i as [|i].
    + simpl. f_equal. destruct counts; simpl; lia.
    + change (running_totals (before + c) counts !! i
              = Some (before + (c + sum_list (take (S i) counts)))).
      rewrite IH by lia. f_equal. lia.
Qed.

Lemma sum_list_take_increment n k counts :
  k < length counts ->
  sum_list (take n (increment k counts))
    = sum_list (take n counts) + (if decide (k < n) then 1 else 0).
Proof.
  intros Hk. unfold increment. destruct (decide (k < n)) as [Hlt|Hge].
  - rewrite take_alter_lt by done. fold (increment k (take n counts)).
    rewrite (sum_list_increment k (take n counts)); [lia|].
    rewrite length_take. lia.
  - rewrite take_alter_ge by lia. lia.
Qed.

Lemma le_refl a : a <> NaN -> le a a = true.
Proof.
  destruct a as [| | |q]; simpl; try done.
  intros _. apply Qle_bool_iff. apply Qle_refl.
Qed.

Lemma ascending_lookup stored i j a b :
  ascending stored -> i <= j ->
  stored !! i = Some a -> stored !! j = Some b ->
  a <> NaN -> le a b = true.
Proof.
  unfold ascending. intros Hsorted. revert i j.
  induction Hsorted as [|x stored Hsorted IH Hall]; intros i j Hij Ha Hb Hnan; [done|].
  destruct i as [|i], j as [|j]; simpl in *; try lia.
  - injection Ha as ->. injection Hb as ->. by apply le_refl.
  - injection Ha as ->. rewrite Forall_forall in Hall. apply Hall.
    by apply list_elem_of_lookup_2 in Hb.
  - apply (IH i j); [lia|done..].
Qed.

Lemma slot_at_most_iff value stored k i b :
  ascending stored -> Forall (fun y => y <> NaN) stored ->
  first_boundary_at_least value stored k ->
  stored !! i = Some b ->
  k <= i <-> le value b = true.
Proof.
  intros Hasc Hnan [Hbefore Hat] Hb. split.
  - intros Hki. destruct Hat as [(bk & Hbk & Hle)| ->].
    + apply (le_trans _ bk); [done|].
      apply (ascending_lookup stored k i); try done.
      rewrite Forall_forall in Hnan. apply Hnan.
      by apply list_elem_of_lookup_2 in Hbk.
    + apply lookup_lt_Some in Hb. lia.
  - intros Hle. destruct (decide (k <= i)) as [|Hgt]; [done|].
    rewrite (Hbefore i b) in Hle by (done || lia). done.
Qed.

Lemma fresh_counts_zero boundaries now this n :
  constructor boundaries now = Ok this ->
  sum_list (take n (bucket_counts this)) = 0.
Proof.
  unfold constructor. destruct (is_nonempty_array boundaries); simpl; [|done].
  intros [= <-]. unfold bucket_counts. simpl.
  set (stored := Array_sort _ _).
  assert (Hzero : forall m (l : list nat), Forall (fun c => c = 0) l ->
                                           sum_list (take m l) = 0).
  { intros m l Hl. revert m. induction Hl as [|c l -> _ IH]; intros [|m]; simpl; auto. }
  apply Hzero. apply Forall_app. split; [|by repeat constructor].
  apply Forall_forall. intros c Hc. apply list_elem_of_fmap in Hc as (? & -> & _).
  done.
Qed.

Lemma cumulative_after_updates this calls i b :
  well_formed this ->
  ascending (_boundaries this) ->
  Forall (fun y => y <> NaN) (_boundaries this) ->
  _boundaries this !! i = Some b ->
  sum_list (take (S i) (bucket_counts (updates calls this)))
    = sum_list (take (S i) (bucket_counts this)) + observed_at_most b calls.
Proof.
  intros Hwf Hasc Hnan Hb.
  induction calls as [|call calls IH] using rev_ind; [simpl; lia|].
  rewrite updates_snoc, observed_at_most_snoc.
  destruct (update_slot (updates calls this) (fst call) (snd call))
    as (k & c & Hslot & Hc & ->); [by apply updates_well_formed|].
  rewrite updates_boundaries in Hslot.
  rewrite sum_list_take_increment by (by apply lookup_lt_Some in Hc).
  rewrite IH.
  pose proof (slot_at_most_iff _ _ _ _ _ Hasc Hnan Hslot Hb) as Hiff.
  destruct (decide (k < S i)) as [Hlt|Hge], (le (fst call) b) eqn:Hle;
    destruct Hiff as [Hto Hfrom]; lia.
Qed.

(** The cumulative total an exporter prints for a boundary is the number of
    recorded values that are at most that boundary, and the total with the
    overflow slot is the number of recorded values; this holds for every
    aggregator built from finite boundaries, whatever values are recorded. *)
Theorem cumulative_totals_count_values_at_most :
  forall input now this calls,
    all_finite input ->
    constructor (Some input) now = Ok this ->
    (forall i b,
        _boundaries this !! i = Some b ->
        running_totals 0 (bucket_counts (updates calls this)) !! i
          = Some (observed_at_most b calls)) /\
    running_totals 0 (bucket_counts (updates calls this))
      !! length (_boundaries this) = Some (length calls).
Proof.
  intros input now this calls Hfinite Hnew.
  pose proof (constructor_well_formed _ _ _ Hnew) as Hwf.
  pose proof (updates_well_formed calls _ Hwf) as Hwf'.
  assert (Hstored : ascending (_boundaries this) /\
                    Forall (fun y => y <> NaN) (_boundaries this)).
  { unfold constructor in Hnew.
    destruct (is_nonempty_array (Some input)); simpl in Hnew; [|done].
    injection Hnew as <-. simpl. split.
    - apply Array_sort_ascending. by apply finite_not_NaN.
    - rewrite <- Array_sort_Permutation. by apply finite_not_NaN. }
  destruct Hstored as [Hasc Hnan]. split.
  - intros i b Hb.
    rewrite running_totals_lookup.
    + rewrite (cumulative_after_updates this calls i b) by done.
      by rewrite (fresh_counts_zero _ _ _ _ Hnew).
    + rewrite Hwf', updates_boundaries. apply lookup_lt_Some in Hb. lia.
  - rewrite running_totals_lookup by (rewrite Hwf', updates_boundaries; lia).
    rewrite take_ge by (rewrite Hwf', updates_boundaries; lia).
    destruct (updates_totals calls this Hwf) as [-> _].
    rewrite <- (take_ge (bucket_counts this) (S (length (_boundaries this))))
      by (rewrite Hwf; lia).
    by rewrite (fresh_counts_zero _ _ _ _ Hnew).
Qed.

Lemma cumulative_totals_count_values_at_most_witness :
  running_totals 0 (bucket_counts
    (updates [(of_Z 3, (1, 0)%Z); (NaN, (2, 0)%Z); (of_Z (-1), (3, 0)%Z); (of_Z 9, (4, 0)%Z)]
       {| kind := HISTOGRAM;
          _boundaries := [of_Z 1; of_Z 5];
          _current := _newEmptyCheckpoint [of_Z 1; of_Z 5];
          _lastUpdateTime := (0, 0)%Z |})) !! 1 = Some 2.
Proof.
  apply (proj1 (cumulative_totals_count_values_at_most
                  [of_Z 5; of_Z 1] (0, 0)%Z _
                  [(of_Z 3, (1, 0)%Z); (NaN, (2, 0)%Z); (of_Z (-1), (3, 0)%Z);
                   (of_Z 9, (4, 0)%Z)]
                  ltac:(repeat constructor) eq_refl) 1 (of_Z 5)).
  reflexivity.
Defined.

Lemma lt_asym a b : lt a b = true -> lt b a = true -> False.
Proof.
  destruct a as [| | |p], b as [| | |q]; simpl; try done.
  destruct (Qle_bool p q) eqn:Hpq, (Qle_bool q p) eqn:Hqp; simpl; try done.
  intros _ _.
  destruct (Qlt_le_dec q p) as [Hlt|Hle].
  - apply Qlt_le_weak, Qle_bool_iff in Hlt. congruence.
  - apply Qle_bool_iff in Hle. congruence.
Qed.

Lemma Array_sort_ascending_id array :
  Forall (fun y => y <> NaN) array -> ascending array ->
  Array_sort (fun a b => sub a b) array = array.
Proof.
  unfold ascending. intros Hnan Hasc.
  induction Hasc as [|x array Hasc IH Hall]; [done|].
  inversion Hnan as [|? ? Hx Hnan']; subst.
  simpl. rewrite IH by done.
  destruct array as [|y rest]; [done|]. simpl.
  inversion Hnan'; subst. inversion Hall as [|? ? Hxy _]; subst.
  by rewrite gt_sub_zero, Hxy.
Qed.

Lemma constructor_boundaries input now this :
  constructor (Some input) now = Ok this ->
  input <> [] /\ _boundaries this = Array_sort (fun a b => sub a b) input.
Proof.
  unfold constructor. destruct input as [|x input]; simpl; [done|].
  by intros [= <-].
Qed.

Lemma Array_sort_strictly_ascending input :
  all_finite input -> pairwise_distinct input ->
  strictly_ascending (Array_sort (fun a b => sub a b) input).
Proof.
  intros Hfinite Hdistinct. apply ascending_distinct_strictly.
  - rewrite <- Array_sort_Permutation. by apply finite_not_NaN.
  - apply Array_sort_ascending. by apply finite_not_NaN.
  - unfold pairwise_distinct. by rewrite <- Array_sort_Permutation.
Qed.

(** The stored boundaries depend on the values handed to the constructor and
    not on their order: two arrangements of the same finite, pairwise distinct
    values give the same stored sequence. *)
Theorem constructor_ignores_input_order :
  forall input input' now now' this this',
    all_finite input ->
    pairwise_distinct input ->
    Permutation input input' ->
    constructor (Some input) now = Ok this ->
    constructor (Some input') now' = Ok this' ->
    _boundaries this = _boundaries this'.
Proof.
  intros input input' now now' this this' Hfinite Hdistinct Hperm Hnew Hnew'.
  apply constructor_boundaries in Hnew as [_ ->].
  apply constructor_boundaries in Hnew' as [_ ->].
  apply (StronglySorted_unique_strong (fun a b => lt a b = true)).
  - intros x y _ _ Hxy Hyx. destruct (lt_asym x y Hxy Hyx).
  - by apply Array_sort_strictly_ascending.
  - apply Array_sort_strictly_ascending.
    + unfold all_finite. by rewrite <- Hperm.
    + unfold pairwise_distinct. by rewrite <- Hperm.
  - by rewrite <- !Array_sort_Permutation.
Qed.

Lemma constructor_ignores_input_order_witness :
  exists this this',
    constructor (Some [of_Z 4; of_Z 1; of_Z 2]) (0, 0)%Z = Ok this /\
    constructor (Some [of_Z 2; of_Z 4; of_Z 1]) (7, 0)%Z = Ok this' /\
    _boundaries this = _boundaries this'.
Proof.
  eexists. eexists. split; [reflexivity|]. split; [reflexivity|].
  apply (constructor_ignores_input_order
           [of_Z 4; of_Z 1; of_Z 2] [of_Z 2; of_Z 4; of_Z 1] (0, 0)%Z (7, 0)%Z).
  - repeat constructor.
  - unfold pairwise_distinct. vm_compute.
    repeat (apply NoDup_cons_2;
            [intros H; repeat (apply elem_of_cons in H as [H|H]; [discriminate H|]);
             by apply elem_of_nil in H|]).
    apply NoDup_nil_2.
  - apply (Permutation_cons_app [of_Z 2] [of_Z 1] (of_Z 4)). apply perm_swap.
  - reflexivity.
  - reflexivity.
Defined.

(** A finite sequence that is already ascending is stored exactly as given,
    repeated values included; so building an aggregator from the stored
    boundaries of another one reproduces them. *)
Theorem constructor_keeps_ascending_input :
  (forall input now,
      input <> [] -> all_finite input -> ascending input ->
      exists this,
        constructor (Some input) now = Ok this /\
        _boundaries this = input /\
        boundaries (buckets (_current this)) = input) /\
  (forall input now this now',
      all_finite input ->
      constructor (Some input) now = Ok this ->
      exists this',
        constructor (Some (_boundaries this)) now' = Ok this' /\
        _boundaries this' = _boundaries this).
Proof.
  assert (Hfirst : forall input now,
             input <> [] -> all_finite input -> ascending input ->
             exists this,
               constructor (Some input) now = Ok this /\
               _boundaries this = input /\
               boundaries (buckets (_current this)) = input).
  { intros input now Hne Hfinite Hasc.
    destruct input as [|x input]; [done|].
    eexists. split; [reflexivity|]. simpl _boundaries. simpl boundaries.
    split; apply (Array_sort_ascending_id (x :: input)); auto using finite_not_NaN. }
  split; [exact Hfirst|].
  intros input now this now' Hfinite Hnew.
  apply constructor_boundaries in Hnew as [Hne Hstored].
  destruct (Hfirst (_boundaries this) now') as (this' & Hnew' & Hb & _).
  - rewrite Hstored. intros Hnil.
    apply Hne. apply Permutation_nil_r. rewrite <- Hnil. apply Array_sort_Permutation.
  - rewrite Hstored. unfold all_finite. by rewrite <- Array_sort_Permutation.
  - rewrite Hstored. apply Array_sort_ascending. by apply finite_not_NaN.
  - by exists this'.
Qed.

Lemma constructor_keeps_ascending_input_witness :
  exists this,
    constructor (Some [of_Z (-3); of_Z 0; of_Z 0; Finite (5 # 2)]) (0, 0)%Z = Ok this /\
    _boundaries this = [of_Z (-3); of_Z 0; of_Z 0; Finite (5 # 2)].
Proof.
  destruct (proj1 constructor_keeps_ascending_input
              [of_Z (-3); of_Z 0; of_Z 0; Finite (5 # 2)] (0, 0)%Z)
    as (this & Hnew & Hstored & _).
  - done.
  - repeat constructor.
  - unfold ascending. repeat constructor.
  - by exists this.
Defined.

Lemma updates_cons call calls this :
  updates (call :: calls) this = updates calls (update (fst call) (snd call) this).
Proof. reflexivity. Qed.

Lemma whole_total_snoc values z :
  whole_total (values ++ [z]) = (whole_total values + z)%Z.
Proof. induction values as [|y values IH]; simpl; lia. Qed.

(** After a run of whole-number observations whose running totals stay
    between -2^53 and 2^53, where the additions of the code are exact, the
    running [sum] is the sum of the observations, and the point's timestamp
    is the clock reading of the last update, or of the construction when
    nothing was recorded. *)
Theorem toPoint_after_whole_number_updates :
  forall boundaries now this (observations : list (Z * HrTime)),
    constructor boundaries now = Ok this ->
    Forall (fun o => safe_integer (fst o)) observations ->
    (forall k, safe_integer (whole_total (take k (map fst observations)))) ->
    let final :=
      updates (map (fun o => (of_Z (fst o), snd o)) observations) this in
    sum (value (fst (toPoint final))) = of_Z (whole_total (map fst observations)) /\
    timestamp (fst (toPoint final)) = List.last (map snd observations) now.
Proof.
  intros boundaries now this observations Hnew _ _. simpl.
  assert (Hstart : sum (_current this) = of_Z 0 /\ _lastUpdateTime this = now).
  { unfold constructor in Hnew.
    destruct (is_nonempty_array boundaries); simpl in Hnew; [|done].
    by injection Hnew as <-. }
  destruct Hstart as [Hsum Htime]. clear Hnew.
  induction observations as [|o observations IH] using rev_ind.
  - by split.
  - rewrite !map_app. simpl map. rewrite updates_snoc, last_last.
    split; [|done].
    destruct IH as [IHsum _]. cbn [update _current sum fst snd].
    by rewrite IHsum, add_of_Z, whole_total_snoc.
Qed.

Lemma toPoint_after_whole_number_updates_witness :
  sum (value (fst (toPoint
    (updates [(of_Z 7, (1, 0)%Z); (of_Z (-3), (2, 5)%Z)]
       {| kind := HISTOGRAM;
          _boundaries := [of_Z 1];
          _current := _newEmptyCheckpoint [of_Z 1];
          _lastUpdateTime := (0, 0)%Z |})))) = of_Z 4.
Proof.
  apply (toPoint_after_whole_number_updates (Some [of_Z 1]) (0, 0)%Z _
           [(7, (1, 0)); (-3, (2, 5))]%Z eq_refl).
  - repeat constructor; unfold safe_integer; simpl; lia.
  - intros [|[|[|k]]]; unfold safe_integer; simpl; lia.
Defined.

(** One [NaN] observation makes the running [sum] [NaN] for every later
    point, whatever is recorded afterwards; the aggregator accepts it without
    an error, and counts it in the overflow slot. *)
Theorem NaN_update_poisons_sum :
  forall this now later,
    reachable this ->
    sum (_current (updates later (update NaN now this))) = NaN /\
    exists c,
      bucket_counts this !! length (_boundaries this) = Some c /\
      bucket_counts (update NaN now this) !! length (_boundaries this) = Some (S c).
Proof.
  intros this now later Hreach. split.
  - assert (Hnan : sum (_current (update NaN now this)) = NaN).
    { simpl. by destruct (sum (_current this)). }
    revert Hnan. generalize (update NaN now this). intros a Ha.
    induction later as [|call later IH] using rev_ind; [done|].
    rewrite updates_snoc. simpl. by rewrite IH.
  - destruct (update_slot this NaN now (reachable_well_formed _ Hreach))
      as (k & c & [Hbefore Hat] & Hc & Heq).
    assert (k = length (_boundaries this)) as ->.
    { destruct Hat as [(b & _ & Hle)|]; [|done]. by destruct b. }
    exists c. split; [done|]. rewrite Heq. unfold increment.
    by rewrite list_lookup_alter_eq, Hc.
Qed.

Lemma NaN_update_poisons_sum_witness :
  sum (_current (updates [(of_Z 2, (2, 0)%Z)]
    (update NaN (1, 0)%Z
       {| kind := HISTOGRAM;
          _boundaries := [of_Z 1];
          _current := _newEmptyCheckpoint [of_Z 1];
          _lastUpdateTime := (0, 0)%Z |}))) = NaN.
Proof.
  apply (NaN_update_poisons_sum _ (1, 0)%Z [(of_Z 2, (2, 0)%Z)]).
  apply (reachable_new (Some [of_Z 1]) (0, 0)%Z). reflexivity.
Defined.

(** ** Further properties of boundary generation *)

Lemma gt_of_Z a b : gt (of_Z a) (of_Z b) = (b <? a)%Z.
Proof.
  unfold gt, of_Z, Qle_bool, inject_Z. simpl. rewrite !Z.mul_1_r.
  symmetry. apply Z.ltb_antisym.
Qed.

Lemma generate_Ok_inv value count next array :
  generate value count (NextFunction next) = Ok array ->
  is_finite value = true /\ is_finite count = true /\
  exists n, array_length count = Some n /\ array = generate_loop next n 0 value.
Proof.
  unfold generate.
  destruct (is_finite value); [|done]. destruct (is_finite count); [|done].
  cbn [assert bind is_function].
  destruct (array_length count) as [n|]; [|done].
  intros [= <-]. eauto.
Qed.

Lemma generate_loop_linear roundTo step n index first :
  fixes_safe_integers roundTo ->
  (0 <= step)%Z ->
  safe_integer first ->
  safe_integer (first + Z.of_nat n * step) ->
  generate_loop (fun value _ => roundTo (add value (of_Z step))) n index (of_Z first)
    = arithmetic_progression first step n.
Proof.
  intros Hfixed Hstep. unfold arithmetic_progression, safe_integer.
  set (bound := (2 ^ 53)%Z).
  revert index first. induction n as [|n IH]; intros index first Hfirst Hlast; [done|].
  cbn [generate_loop seq map]. f_equal.
  - f_equal. lia.
  - rewrite add_of_Z, Hfixed by (unfold safe_integer; fold bound; nia).
    rewrite IH by nia. rewrite <- seq_shift, map_map.
    apply map_ext. intros i. f_equal. lia.
Qed.

Lemma generate_loop_exponential roundTo ratio n index first :
  fixes_safe_integers roundTo ->
  (0 < first)%Z -> (1 <= ratio)%Z ->
  (first * ratio ^ Z.of_nat n <= 2 ^ 53)%Z ->
  generate_loop (fun value _ => roundTo (mul value (of_Z ratio))) n index (of_Z first)
    = geometric_progression first ratio n.
Proof.
  intros Hfixed Hfirst Hratio. unfold geometric_progression.
  set (bound := (2 ^ 53)%Z).
  revert index first Hfirst. induction n as [|n IH]; intros index first Hfirst Hlast;
    [done|].
  cbn [generate_loop seq map]. f_equal.
  - f_equal. simpl. lia.
  - rewrite Nat2Z.inj_succ, Z.pow_succ_r in Hlast by lia.
    assert (Hpow : (0 < ratio ^ Z.of_nat n)%Z) by (apply Z.pow_pos_nonneg; lia).
    assert (Hbound : (0 <= bound)%Z) by (unfold bound; lia).
    rewrite mul_of_Z, Hfixed by (unfold safe_integer; fold bound; nia).
    rewrite IH by nia. rewrite <- seq_shift, map_map.
    apply map_ext. intros i. f_equal.
    rewrite Nat2Z.inj_succ, Z.pow_succ_r by lia. lia.
Qed.

Lemma increasing_map_seq (g : nat -> number) first n :
  (forall i j, i < j -> lt (g i) (g j) = true) ->
  strictly_ascending (map g (seq first n)).
Proof.
  intros Hg. unfold strictly_ascending.
  revert first. induction n as [|n IH]; intros first; simpl; constructor; [apply IH|].
  apply Forall_forall. intros x Hx.
  apply list_elem_of_fmap in Hx as (j & -> & Hj).
  apply elem_of_seq in Hj. apply Hg. lia.
Qed.

Lemma round_decimals_fixes_safe_integers digits :
  fixes_safe_integers (round_decimals digits).
Proof. intros z _. apply round_decimals_fixes_integers. Qed.

(** On whole numbers between -2^53 and 2^53, where the additions of the code
    are exact, and with a rounding helper that leaves these numbers as they
    are: [linear] with a positive width and a count of at most 2^32 - 1
    returns the arithmetic progression [start + i * width] for [i] below
    [count], provided [start + count * width] is still in the range; the
    result is empty for a count of zero and is strictly ascending. *)
Theorem linear_arithmetic_progression :
  forall roundTo first step n,
    fixes_safe_integers roundTo ->
    (0 < step)%Z ->
    (Z.of_nat n <= max_array_length)%Z ->
    safe_integer first ->
    safe_integer step ->
    safe_integer (first + Z.of_nat n * step) ->
    linear roundTo (of_Z first) (of_nat n) (Some (of_Z step))
      = Ok (arithmetic_progression first step n) /\
    length (arithmetic_progression first step n) = n /\
    strictly_ascending (arithmetic_progression first step n).
Proof.
  intros roundTo first step n Hfixed Hstep Hmax Hfirst _ Hlast. split; [|split].
  - unfold linear.
    change (default (of_Z first) (Some (of_Z step))) with (of_Z step).
    rewrite gt_of_Z.
    replace (0 <? step)%Z with true by (symmetry; by apply Z.ltb_lt).
    cbn [assert bind]. unfold of_nat. rewrite generate_of_nat by done.
    rewrite generate_loop_linear; [done..|lia|done|done].
  - unfold arithmetic_progression. by rewrite length_map, length_seq.
  - apply increasing_map_seq. intros i j Hij. unfold lt.
    rewrite gt_of_Z. apply Z.ltb_lt. nia.
Qed.

Lemma linear_arithmetic_progression_witness :
  linear (round_decimals 2) (of_Z (-5)) (of_nat 4) (Some (of_Z 5))
    = Ok [of_Z (-5); of_Z 0; of_Z 5; of_Z 10].
Proof.
  apply (linear_arithmetic_progression (round_decimals 2) (-5) 5 4).
  - apply round_decimals_fixes_safe_integers.
  - lia.
  - unfold max_array_length. lia.
  - unfold safe_integer. simpl. lia.
  - unfold safe_integer. simpl. lia.
  - unfold safe_integer. simpl. lia.
Defined.

(** On whole numbers up to 2^53, where the products of the code are exact,
    and with a rounding helper that leaves these numbers as they are:
    [exponential] with a positive start and a factor above 1 returns the
    geometric progression [start * factor ^ i] for [i] below [count],
    provided [start * factor ^ count] is still at most 2^53; the result is
    strictly ascending. *)
Theorem exponential_geometric_progression :
  forall roundTo first ratio n,
    fixes_safe_integers roundTo ->
    (0 < first)%Z -> (1 < ratio)%Z ->
    safe_integer ratio ->
    (first * ratio ^ Z.of_nat n <= 2 ^ 53)%Z ->
    exponential roundTo (of_Z first) (of_nat n) (Some (of_Z ratio))
      = Ok (geometric_progression first ratio n) /\
    length (geometric_progression first ratio n) = n /\
    strictly_ascending (geometric_progression first ratio n).
Proof.
  intros roundTo first ratio n Hfixed Hfirst Hratio _ Hlast. split; [|split].
  - assert (Hmax : (Z.of_nat n <= max_array_length)%Z).
    { assert (Hpow : (2 ^ Z.of_nat n <= ratio ^ Z.of_nat n)%Z)
        by (apply Z.pow_le_mono_l; lia).
      assert (Hpos : (0 < ratio ^ Z.of_nat n)%Z) by (apply Z.pow_pos_nonneg; lia).
      assert (Hle : (2 ^ Z.of_nat n <= 2 ^ 53)%Z) by nia.
      apply Z.pow_le_mono_r_iff in Hle; [|lia|lia].
      unfold max_array_length. lia. }
    unfold exponential.
    change (default (of_Z 2) (Some (of_Z ratio))) with (of_Z ratio).
    rewrite !gt_of_Z.
    replace (0 <? first)%Z with true by (symmetry; by apply Z.ltb_lt).
    replace (1 <? ratio)%Z with true by (symmetry; by apply Z.ltb_lt).
    cbn [assert bind]. unfold of_nat. rewrite generate_of_nat by done.
    rewrite generate_loop_exponential; [done..|lia|done].
  - unfold geometric_progression. by rewrite length_map, length_seq.
  - apply increasing_map_seq. intros i j Hij. unfold lt.
    rewrite gt_of_Z. apply Z.ltb_lt.
    apply Z.mul_lt_mono_pos_l; [done|].
    apply Z.pow_lt_mono_r; lia.
Qed.

Lemma exponential_geometric_progression_witness :
  exponential (round_decimals 2) (of_Z 3) (of_nat 4) (Some (of_Z 10))
    = Ok [of_Z 3; of_Z 30; of_Z 300; of_Z 3000].
Proof.
  apply (exponential_geometric_progression (round_decimals 2) 3 10 4).
  - apply round_decimals_fixes_safe_integers.
  - lia.
  - lia.
  - unfold safe_integer. simpl. lia.
  - simpl. lia.
Defined.

Lemma linear_Ok_inv roundTo start count width array :
  linear roundTo start count width = Ok array ->
  gt (default start width) (of_Z 0) = true /\
  is_finite start = true /\
  array_length count = Some (length array) /\
  (array <> [] -> array !! 0 = Some start).
Proof.
  unfold linear. destruct (gt (default start width) (of_Z 0)); [|done].
  cbn [assert bind]. intros Hgen.
  apply generate_Ok_inv in Hgen as (Hstart & _ & n & Hn & ->).
  rewrite length_generate_loop. repeat split; try done.
  destruct n; [done|]. by intros _.
Qed.

Lemma exponential_Ok_inv roundTo start count factor array :
  exponential roundTo start count factor = Ok array ->
  gt start (of_Z 0) = true /\
  gt (default (of_Z 2) factor) (of_Z 1) = true /\
  is_finite start = true /\
  array_length count = Some (length array) /\
  (array <> [] -> array !! 0 = Some start).
Proof.
  unfold exponential. destruct (gt start (of_Z 0)); [|done].
  destruct (gt (default (of_Z 2) factor) (of_Z 1)); [|done].
  cbn [assert bind]. intros Hgen.
  apply generate_Ok_inv in Hgen as (Hstart & _ & n & Hn & ->).
  rewrite length_generate_loop. repeat split; try done.
  destruct n; [done|]. by intros _.
Qed.

(** Whenever [linear] or [exponential] returns, its preconditions held and
    the result has exactly [count] elements, the first of which is [start]:
    a positive width for [linear], a positive start and a factor above 1 for
    [exponential], and a finite start and a count that is a whole number of
    elements for both. *)
Theorem generated_boundaries_meet_preconditions :
  forall roundTo start count,
    (forall width array,
        linear roundTo start count width = Ok array ->
        gt (default start width) (of_Z 0) = true /\
        is_finite start = true /\
        array_length count = Some (length array) /\
        (array <> [] -> array !! 0 = Some start)) /\
    (forall factor array,
        exponential roundTo start count factor = Ok array ->
        gt start (of_Z 0) = true /\
        gt (default (of_Z 2) factor) (of_Z 1) = true /\
        is_finite start = true /\
        array_length count = Some (length array) /\
        (array <> [] -> array !! 0 = Some start)).
Proof.
  intros roundTo start count. split.
  - intros width array. apply linear_Ok_inv.
  - intros factor array. apply exponential_Ok_inv.
Qed.

Lemma generated_boundaries_meet_preconditions_witness :
  array_length (of_Z 3) = Some (length [of_Z 2; of_Z 4; of_Z 6]).
Proof.
  apply (proj1 (generated_boundaries_meet_preconditions
                  (round_decimals 2) (of_Z 2) (of_Z 3)) None).
  reflexivity.
Defined.

Lemma create_object_length_aux roundTo Number_toString JSON_quote object array :
  create roundTo Number_toString JSON_quote (CObject object) = Ok (Some array) ->
  array_length (Boundaries.count object) = Some (length array).
Proof.
  cbn [create].
  destruct (strict_equals (type object) "linear" || is_defined (width object))%bool.
  - destruct (linear _ _ _ _) as [a|e] eqn:Hlinear; [|done].
    cbn [bind]. intros [= <-]. by apply linear_Ok_inv in Hlinear as (_ & _ & Hlen & _).
  - destruct (exponential _ _ _ _) as [a|e] eqn:Hexp; [|done].
    cbn [bind]. intros [= <-].
    by apply exponential_Ok_inv in Hexp as (_ & _ & _ & Hlen & _).
Qed.

(** [create] on a descriptor object never resolves to [undefined]: when it
    returns, it returns exactly [count] boundaries, and a result that is not
    empty starts at the descriptor's [start], or at its default: the width,
    itself 1 by default, for a linear descriptor, and 1 otherwise. *)
Theorem create_object_returns_count_boundaries :
  forall roundTo Number_toString JSON_quote object result,
    create roundTo Number_toString JSON_quote (CObject object) = Ok result ->
    exists array,
      result = Some array /\
      array_length (Boundaries.count object) = Some (length array) /\
      (array <> [] ->
       array !! 0 =
         Some (if (strict_equals (type object) "linear"
                   || is_defined (width object))%bool
               then default (default (of_Z 1) (width object)) (start object)
               else default (of_Z 1) (start object))).
Proof.
  intros roundTo Number_toString JSON_quote object result. cbn [create].
  destruct (strict_equals (type object) "linear" || is_defined (width object))%bool.
  - destruct (linear _ _ _ _) as [array|e] eqn:Hlinear; [|done].
    cbn [bind]. intros [= <-].
    apply linear_Ok_inv in Hlinear as (_ & _ & Hlen & Hhead). eauto.
  - destruct (exponential _ _ _ _) as [array|e] eqn:Hexp; [|done].
    cbn [bind]. intros [= <-].
    apply exponential_Ok_inv in Hexp as (_ & _ & _ & Hlen & Hhead). eauto.
Qed.

Lemma create_object_returns_count_boundaries_witness :
  exists array,
    Some [Finite (1 # 2); Finite (3 # 4); Finite (1 # 1)] = Some array /\
    array_length (of_Z 3) = Some (length array).
Proof.
  destruct (create_object_returns_count_boundaries
              (round_decimals 2) (fun _ => EmptyString) (fun s => s)
              {| start := Some (Finite (1 # 2)); Boundaries.count := of_Z 3;
                 type := None; width := Some (Finite (1 # 4)); factor := None |}
              (Some [Finite (1 # 2); Finite (3 # 4); Finite (1 # 1)]) eq_refl)
    as (array & Harray & Hlen & _).
  exists array. by split.
Defined.

(** With the width left out, [linear] takes the start as the width, so it
    fails on every start that is not above zero, whatever the count, with the
    error about the width; [create] on a linear descriptor with the width
    left out takes 1 instead and accepts such a start: for a whole start and
    a count of at most 2^32 - 1 with [start] and [start + count] between
    -2^53 and 2^53, where the additions of the code are exact, and a
    rounding helper that leaves these numbers as they are, it returns
    [start], [start + 1] and so on. *)
Theorem linear_without_width_needs_positive_start :
  forall roundTo Number_toString JSON_quote,
    fixes_safe_integers roundTo ->
    (forall start count,
        gt start (of_Z 0) = false ->
        linear roundTo start count None
          = Throw (AssertionError "Linear boundaries needs a width greater than 0")) /\
    (forall first n,
        (Z.of_nat n <= max_array_length)%Z ->
        safe_integer first ->
        safe_integer (first + Z.of_nat n) ->
        create roundTo Number_toString JSON_quote
          (CObject {| start := Some (of_Z first); Boundaries.count := of_nat n;
                      type := Some "linear"%string; width := None; factor := None |})
          = Ok (Some (arithmetic_progression first 1 n))).
Proof.
  intros roundTo Number_toString JSON_quote Hfixed. split.
  - intros start count Hstart. unfold linear.
    change (default start None) with start. by rewrite Hstart.
  - intros first n Hmax Hfirst Hlast.
    change (create _ _ _ _)
      with (let! boundaries :=
              generate (of_Z first) (of_Z (Z.of_nat n))
                (NextFunction (fun value _ => roundTo (add value (of_Z 1)))) in
            Ok (Some boundaries)).
    rewrite generate_of_nat by done. cbn [bind].
    rewrite generate_loop_linear; [done|done|lia|done|].
    by rewrite Z.mul_1_r.
Qed.

Lemma linear_without_width_needs_positive_start_witness :
  linear (round_decimals 2) (of_Z 0) (of_Z 3) None
    = Throw (AssertionError "Linear boundaries needs a width greater than 0") /\
  create (round_decimals 2) (fun _ => EmptyString) (fun s => s)
    (CObject {| start := Some (of_Z 0); Boundaries.count := of_nat 3;
                type := Some "linear"%string; width := None; factor := None |})
    = Ok (Some [of_Z 0; of_Z 1; of_Z 2]).
Proof.
  destruct (linear_without_width_needs_positive_start
              (round_decimals 2) (fun _ => EmptyString) (fun s => s)
              (round_decimals_fixes_safe_integers 2)) as [Hlinear Hcreate].
  split.
  - by apply Hlinear.
  - apply (Hcreate 0%Z 3).
    + unfold max_array_length. lia.
    + unfold safe_integer. simpl. lia.
    + unfold safe_integer. simpl. lia.
Defined.

(** A descriptor object whose count is zero passes every check of the
    generator and resolves to the empty array; the descriptor patch keeps the
    empty array, being truthy, and [aggregatorFor] then fails with the
    constructor's assertion error.  A count above zero always leads to a
    histogram aggregator. *)
Theorem zero_count_fails_at_aggregator_creation :
  forall roundTo Number_toString JSON_quote object array
         (LastValueAggregator SdkAggregator : Type)
         (new_LastValueAggregator : HrTime -> LastValueAggregator)
         (super_aggregatorFor : MetricDescriptor -> HrTime -> SdkAggregator)
         descriptor now,
    create roundTo Number_toString JSON_quote (CObject object) = Ok (Some array) ->
    (array_length (Boundaries.count object) = Some 0 ->
     array = [] /\
     aggregatorFor new_LastValueAggregator super_aggregatorFor
       (Patches._getMetricDescriptor descriptor (Some array)) now
       = Throw (AssertionError "HistogramAggregator should be created with boundaries.")) /\
    (array_length (Boundaries.count object) <> Some 0 ->
     exists this,
       aggregatorFor new_LastValueAggregator super_aggregatorFor
         (Patches._getMetricDescriptor descriptor (Some array)) now
         = Ok (OfHistogram this) /\
       Permutation array (_boundaries this)).
Proof.
  intros roundTo Number_toString JSON_quote object array LVA SdkA new_LVA super
    descriptor now Hcreate.
  pose proof (create_object_length_aux _ _ _ _ _ Hcreate) as Hlen.
  split.
  - intros Hzero. rewrite Hzero in Hlen. injection Hlen as Hlen.
    destruct array; [|done]. by split.
  - intros Hpos. destruct array as [|x array]; [by rewrite Hlen in Hpos|].
    eexists. split; [reflexivity|]. simpl _boundaries.
    apply (Array_sort_Permutation _ (x :: array)).
Qed.

Lemma zero_count_fails_at_aggregator_creation_witness :
  aggregatorFor (fun _ => tt) (fun _ _ => tt)
    (Patches._getMetricDescriptor
       {| metricKind := VALUE_RECORDER; descriptor_boundaries := None |} (Some []))
    (0, 0)%Z
    = Throw (AssertionError "HistogramAggregator should be created with boundaries.").
Proof.
  apply (proj1 (zero_count_fails_at_aggregator_creation
                  (round_decimals 2) (fun _ => EmptyString) (fun s => s)
                  {| start := None; Boundaries.count := of_Z 0; type := None;
                     width := None; factor := None |}
                  [] unit unit (fun _ => tt) (fun _ _ => tt)
                  {| metricKind := VALUE_RECORDER; descriptor_boundaries := None |}
                  (0, 0)%Z eq_refl)).
  reflexivity.
Defined.

(** ** Metric names *)

Lemma filter_Boolean_app before after :
  Names.filter_Boolean (before ++ after)
    = Names.filter_Boolean before ++ Names.filter_Boolean after.
Proof.
  induction before as [|[[|c s]|] before IH]; simpl; [done| done | | done].
  by rewrite IH.
Qed.

Lemma all_word_app s t :
  Names.all_word (s ++ t)%string = (Names.all_word s && Names.all_word t)%bool.
Proof.
  induction s as [|c s IH]; simpl; [done|]. rewrite IH. by destruct (Names.is_word c).
Qed.

Lemma test_name_app s t :
  Names.test_name s = true -> Names.all_word t = true ->
  Names.test_name (s ++ t)%string = true.
Proof.
  destruct s as [|c s]; simpl; [done|].
  intros [Hc Hs]%andb_prop Ht. by rewrite Hc, all_word_app, Hs, Ht.
Qed.

Lemma makeName_without_prefix name : Names.makeName [None; Some name] = name.
Proof. by destruct name. Qed.

(** [makeName] leaves out every part that is missing or the empty string,
    wherever it stands, so a name without a prefix is the name itself; two
    parts that are both present are joined by one underscore. *)
Theorem makeName_skips_missing_parts :
  (forall before after,
      Names.makeName (before ++ None :: after) = Names.makeName (before ++ after) /\
      Names.makeName (before ++ Some EmptyString :: after)
        = Names.makeName (before ++ after)) /\
  (forall name, Names.makeName [None; Some name] = name) /\
  (forall prefix name,
      prefix <> EmptyString -> name <> EmptyString ->
      Names.makeName [Some prefix; Some name] = (prefix ++ "_" ++ name)%string).
Proof.
  split; [|split].
  - intros before after. unfold Names.makeName.
    by rewrite !filter_Boolean_app.
  - apply makeName_without_prefix.
  - by intros [|c prefix] [|d name].
Qed.

Lemma makeName_skips_missing_parts_witness :
  Names.makeName [Some "app"; Some "requests"]%string = "app_requests"%string.
Proof.
  apply (proj2 (proj2 makeName_skips_missing_parts) "app" "requests")%string; done.
Defined.

(** [validateName] returns the name it was given or fails with the error
    that quotes it.  Applied to [makeName(prefix, name)] it accepts a name
    without prefix exactly when the name itself has the shape letter, then
    letters, digits and underscores; behind a prefix of that shape any name
    made of letters, digits and underscores is accepted, also an empty one
    or one that starts with a digit; and with no part present it fails. *)
Theorem validateName_of_makeName :
  forall JSON_quote,
    (forall name result,
        Names.validateName JSON_quote name = Ok result ->
        result = name /\ Names.test_name name = true) /\
    (forall name,
        Names.validateName JSON_quote (Names.makeName [None; Some name])
          = if Names.test_name name then Ok name
            else Throw (AssertionError ("Invalid name " ++ JSON_quote name))) /\
    (forall prefix name,
        Names.test_name prefix = true -> Names.all_word name = true ->
        Names.validateName JSON_quote (Names.makeName [Some prefix; Some name])
          = Ok (Names.makeName [Some prefix; Some name])) /\
    Names.validateName JSON_quote (Names.makeName [None; None])
      = Throw (AssertionError ("Invalid name " ++ JSON_quote EmptyString)).
Proof.
  intros JSON_quote. split; [|split; [|split]].
  - intros name result. unfold Names.validateName. cbn [assert bind].
    destruct (Names.test_name name); [|done]. by intros [= <-].
  - intros name. rewrite makeName_without_prefix.
    unfold Names.validateName. cbn [assert bind].
    by destruct (Names.test_name name).
  - intros prefix name Hprefix Hname.
    assert (Hvalid : Names.test_name (Names.makeName [Some prefix; Some name]) = true).
    { destruct prefix as [|c prefix]; [done|]. destruct name as [|d name].
      - exact Hprefix.
      - change (Names.makeName [Some (String c prefix); Some (String d name)])
          with (String c prefix ++ String "_" (String d name))%string.
        by apply test_name_app. }
    unfold Names.validateName. cbn [assert bind]. by rewrite Hvalid.
  - reflexivity.
Qed.

Lemma validateName_of_makeName_witness :
  Names.validateName (fun s => s) (Names.makeName [Some "app"; Some "2xx_total"])%string
    = Ok "app_2xx_total"%string.
Proof.
  apply (proj1 (proj2 (proj2 (validateName_of_makeName (fun s => s))))
           "app" "2xx_total")%string; reflexivity.
Defined.

(** ** The metric registry *)

Lemma has_true this name :
  Telemetry.has this name = true <-> is_Some (Telemetry.kMetrics this !! name).
Proof. unfold Telemetry.has. apply bool_decide_eq_true. Qed.

Lemma has_false this name :
  Telemetry.has this name = false <-> Telemetry.kMetrics this !! name = None.
Proof.
  unfold Telemetry.has. rewrite bool_decide_eq_false. symmetry. apply eq_None_not_Some.
Qed.

Lemma Telemetry_validateName_Ok_inv JSON_quote this name result :
  Telemetry.validateName JSON_quote this name = Ok result ->
  result = name /\ Names.test_name name = true /\
  Telemetry.kMetrics this !! name = None.
Proof.
  unfold Telemetry.validateName, Names.validateName. cbn [assert bind].
  destruct (Names.test_name name); [|done]. cbn [bind].
  destruct (Telemetry.has this name) eqn:Hhas; [done|].
  intros [= <-]. by apply has_false in Hhas.
Qed.

Lemma getOptions_Ok_inv JSON_quote this options parsed :
  Telemetry.getOptions JSON_quote this options = Ok parsed ->
  exists metricOptions,
    parsed = (Names.makeName [Telemetry.prefix options; Some (Telemetry.name options)],
              Telemetry.getLabels this (Telemetry.labels options), metricOptions) /\
    Telemetry.sdk_boundaries metricOptions = None /\
    Names.test_name
      (Names.makeName [Telemetry.prefix options; Some (Telemetry.name options)]) = true /\
    Telemetry.kMetrics this
      !! Names.makeName [Telemetry.prefix options; Some (Telemetry.name options)] = None.
Proof.
  unfold Telemetry.getOptions, Telemetry.makeName.
  destruct (Telemetry.validateName _ _ _) as [name|e] eqn:Hname; [|done].
  apply Telemetry_validateName_Ok_inv in Hname as (-> & Hvalid & Hfree).
  cbn [bind]. intros [= <-]. eauto.
Qed.

Lemma create_Ok_inv roundTo Number_toString JSON_quote class this options config created :
  Telemetry.create roundTo Number_toString JSON_quote class this options config
    = Ok created ->
  exists metricOptions,
    created =
      Telemetry.register this class
        (Names.makeName [Telemetry.prefix options; Some (Telemetry.name options)],
         Telemetry.getLabels this (Telemetry.labels options), metricOptions) /\
    (class <> Telemetry.ValueRecorderMetric ->
     Telemetry.sdk_boundaries metricOptions = None) /\
    (class = Telemetry.ValueRecorderMetric ->
     Telemetry.getBoundaries roundTo Number_toString JSON_quote config
       = Ok (Telemetry.sdk_boundaries metricOptions)) /\
    Names.test_name
      (Names.makeName [Telemetry.prefix options; Some (Telemetry.name options)]) = true /\
    Telemetry.kMetrics this
      !! Names.makeName [Telemetry.prefix options; Some (Telemetry.name options)] = None.
Proof.
  destruct class; cbn [Telemetry.create];
    unfold Telemetry.createCounter, Telemetry.createUpDownCounter,
      Telemetry.createValueRecorder, Telemetry.getValueOptions.
  - destruct (Telemetry.getOptions _ _ _) as [parsed|e] eqn:Hparsed; [|done].
    apply getOptions_Ok_inv in Hparsed as (o & -> & Hb & Hvalid & Hfree).
    cbn [bind]. intros [= <-]. exists o. by repeat split.
  - destruct (Telemetry.getOptions _ _ _) as [parsed|e] eqn:Hparsed; [|done].
    apply getOptions_Ok_inv in Hparsed as (o & -> & Hb & Hvalid & Hfree).
    cbn [bind]. intros [= <-]. exists o. by repeat split.
  - destruct (Telemetry.getOptions _ _ _) as [parsed|e] eqn:Hparsed; [|done].
    apply getOptions_Ok_inv in Hparsed as (o & -> & Hb & Hvalid & Hfree).
    cbn [bind].
    destruct (Telemetry.getBoundaries _ _ _ _) as [boundaries|e] eqn:Hboundaries;
      [|done].
    cbn [bind]. intros [= <-]. eexists. split; [reflexivity|]. by repeat split.
Qed.

(** A [create...] method that returns has registered its facade under the
    name [makeName(prefix, name)], which has the shape of a metric name and
    was free before; no other entry of the registry changes, and the facade
    carries the registry's labels overridden by the labels of the options. *)
Theorem create_registers_metric :
  forall roundTo Number_toString JSON_quote class this options config
         metric this' call,
    Telemetry.create roundTo Number_toString JSON_quote class this options config
      = Ok (metric, this', call) ->
    let name :=
      Names.makeName [Telemetry.prefix options; Some (Telemetry.name options)] in
    Facades.name (Telemetry.facade metric) = name /\
    Telemetry.class metric = class /\
    Names.test_name name = true /\
    Telemetry.get this name = None /\
    Telemetry.get this' name = Some metric /\
    Telemetry.has this' name = true /\
    (forall other, other <> name -> Telemetry.get this' other = Telemetry.get this other) /\
    (forall key,
        Facades.getLabels (Telemetry.facade metric) None !! key
          = first_defined
              [default ∅ (Telemetry.labels options) !! key;
               default ∅ (Telemetry.kLabels this) !! key]).
Proof.
  intros roundTo Number_toString JSON_quote class this options config
    metric this' call Hcreate name.
  apply create_Ok_inv in Hcreate as (o & Hreg & _ & _ & Hvalid & Hfree).
  unfold Telemetry.register in Hreg. injection Hreg as -> -> ->.
  fold name in Hvalid, Hfree |- *.
  unfold Telemetry.get, Telemetry.setMetric. cbn.
  repeat split; try done.
  - by rewrite lookup_insert_eq.
  - apply has_true. cbn. rewrite lookup_insert_eq. by eexists.
  - intros other Hother. by rewrite lookup_insert_ne.
  - intros key. unfold Facades.getLabels, Telemetry.getLabels, Facades.spread. cbn.
    rewrite !lookup_union, lookup_empty.
    destruct (default ∅ (Telemetry.labels options) !! key),
      (default ∅ (Telemetry.kLabels this) !! key); done.
Qed.

Lemma create_registers_metric_witness :
  exists metric this' call,
    Telemetry.create (fun x => x) (fun _ => EmptyString) (fun s => s)
      Telemetry.CounterMetric
      (Telemetry.new_Telemetry (Some {[ "service" := "api" ]}))%string
      {| Telemetry.prefix := Some "app"; Telemetry.name := "requests";
         Telemetry.description := None; Telemetry.unit := Some "ms";
         Telemetry.labels := None |}%string
      CUndefined = Ok (metric, this', call) /\
    Telemetry.get this' "app_requests"%string = Some metric.
Proof.
  eexists. eexists. eexists. split; [reflexivity|].
  eapply (create_registers_metric (fun x => x) (fun _ => EmptyString) (fun s => s)
            Telemetry.CounterMetric
            (Telemetry.new_Telemetry (Some {[ "service" := "api" ]}))%string
            {| Telemetry.prefix := Some "app"; Telemetry.name := "requests";
               Telemetry.description := None; Telemetry.unit := Some "ms";
               Telemetry.labels := None |}%string
            CUndefined).
  reflexivity.
Defined.

(** Once a metric is registered, every later [create...] call whose prefix
    and name make the same name fails with the error that the name has
    already been registered, whatever kind of metric it asks for and whatever
    its other options are. *)
Theorem create_rejects_registered_name :
  forall roundTo Number_toString JSON_quote class this options config
         metric this' call class' options' config',
    Telemetry.create roundTo Number_toString JSON_quote class this options config
      = Ok (metric, this', call) ->
    Names.makeName [Telemetry.prefix options'; Some (Telemetry.name options')]
      = Facades.name (Telemetry.facade metric) ->
    Telemetry.create roundTo Number_toString JSON_quote class' this' options' config'
      = Throw (AssertionError
                 ("A metric with the name "
                  ++ JSON_quote (Facades.name (Telemetry.facade metric))
                  ++ " has already been registered.")).
Proof.
  intros roundTo Number_toString JSON_quote class this options config
    metric this' call class' options' config' Hcreate Hname.
  apply create_Ok_inv in Hcreate as (o & Hreg & _ & _ & Hvalid & _).
  unfold Telemetry.register in Hreg. injection Hreg as -> -> ->.
  cbn [Telemetry.facade Facades.name Facades.new_ObservableMetric] in *.
  assert (Hget : Telemetry.getOptions JSON_quote
                   {| Telemetry.kLabels := Telemetry.kLabels this;
                      Telemetry.kMetrics :=
                        Telemetry.setMetric (Telemetry.kMetrics this)
                          {| Telemetry.class := class;
                             Telemetry.facade :=
                               Facades.new_ObservableMetric (Telemetry.base_of class)
                                 (Names.makeName
                                    [Telemetry.prefix options;
                                     Some (Telemetry.name options)])
                                 (Some (Telemetry.getLabels this
                                          (Telemetry.labels options))) |} |}
                   options'
                 = Throw (AssertionError
                            ("A metric with the name "
                             ++ JSON_quote
                                  (Names.makeName
                                     [Telemetry.prefix options;
                                      Some (Telemetry.name options)])
                             ++ " has already been registered."))).
  { unfold Telemetry.getOptions, Telemetry.makeName, Telemetry.validateName,
      Names.validateName.
    rewrite Hname, Hvalid. cbn [assert bind].
    replace (Telemetry.has _ _) with true; [done|].
    symmetry. apply has_true. unfold Telemetry.setMetric. cbn.
    rewrite lookup_insert_eq. by eexists. }
  destruct class'; cbn [Telemetry.create];
    unfold Telemetry.createCounter, Telemetry.createUpDownCounter,
      Telemetry.createValueRecorder, Telemetry.getValueOptions;
    by rewrite Hget.
Qed.

Lemma create_rejects_registered_name_witness :
  exists metric this' call,
    Telemetry.create (fun x => x) (fun _ => EmptyString) (fun s => s)
      Telemetry.CounterMetric (Telemetry.new_Telemetry None)
      {| Telemetry.prefix := Some "app"; Telemetry.name := "requests";
         Telemetry.description := None; Telemetry.unit := None;
         Telemetry.labels := None |}%string
      CUndefined = Ok (metric, this', call) /\
    Telemetry.create (fun x => x) (fun _ => EmptyString) (fun s => s)
      Telemetry.ValueRecorderMetric this'
      {| Telemetry.prefix := None; Telemetry.name := "app_requests";
         Telemetry.description := None; Telemetry.unit := None;
         Telemetry.labels := None |}%string
      (CPrimitive PNull)
      = Throw (AssertionError
                 "A metric with the name app_requests has already been registered.").
Proof.
  eexists. eexists. eexists. split; [reflexivity|].
  exact (create_rejects_registered_name (fun x => x) (fun _ => EmptyString)
           (fun s => s) Telemetry.CounterMetric (Telemetry.new_Telemetry None)
           {| Telemetry.prefix := Some "app"; Telemetry.name := "requests";
              Telemetry.description := None; Telemetry.unit := None;
              Telemetry.labels := None |}%string
           CUndefined _ _ _ Telemetry.ValueRecorderMetric
           {| Telemetry.prefix := None; Telemetry.name := "app_requests";
              Telemetry.description := None; Telemetry.unit := None;
              Telemetry.labels := None |}%string
           (CPrimitive PNull) eq_refl eq_refl).
Defined.

(** In a registry built by the [create...] methods every metric is stored
    under its own name, every registered name has the shape of a metric
    name, and the base class of a facade is the one of its class. *)
Theorem registry_keys_are_valid_names :
  forall roundTo Number_toString JSON_quote this key metric,
    built roundTo Number_toString JSON_quote this ->
    Telemetry.get this key = Some metric ->
    Facades.name (Telemetry.facade metric) = key /\
    Names.test_name key = true /\
    Facades.base (Telemetry.facade metric)
      = Telemetry.base_of (Telemetry.class metric).
Proof.
  intros roundTo Number_toString JSON_quote this key metric Hbuilt.
  revert key metric.
  induction Hbuilt as [labels|class this options config m this' call Hbuilt IH Hcreate];
    intros key metric.
  - unfold Telemetry.get. cbn. by rewrite lookup_empty.
  - apply create_Ok_inv in Hcreate as (o & Hreg & _ & _ & Hvalid & _).
    unfold Telemetry.register in Hreg. injection Hreg as -> -> ->.
    unfold Telemetry.get, Telemetry.setMetric. cbn.
    destruct (decide
                (Names.makeName [Telemetry.prefix options; Some (Telemetry.name options)]
                 = key)) as [<-|Hne].
    + rewrite lookup_insert_eq. by intros [= <-].
    + rewrite lookup_insert_ne by done. apply IH.
Qed.

Lemma registry_keys_are_valid_names_witness :
  exists this metric,
    built (fun x => x) (fun _ => EmptyString) (fun s => s) this /\
    Telemetry.get this "latency"%string = Some metric /\
    Facades.name (Telemetry.facade metric) = "latency"%string.
Proof.
  assert (Hbuilt : built (fun x => x) (fun _ => EmptyString) (fun s => s)
                     (snd (fst (Telemetry.register (Telemetry.new_Telemetry None)
                        Telemetry.ValueRecorderMetric
                        ("latency"%string, ∅,
                         {| Telemetry.sdk_unit := None;
                            Telemetry.sdk_description := None;
                            Telemetry.sdk_boundaries := Some [of_Z 1] |}))))).
  { eapply (built_create _ _ _ Telemetry.ValueRecorderMetric
              (Telemetry.new_Telemetry None)
              {| Telemetry.prefix := None; Telemetry.name := "latency";
                 Telemetry.description := None; Telemetry.unit := None;
                 Telemetry.labels := None |}%string
              (CArray [of_Z 1])).
    - apply built_new.
    - reflexivity. }
  eexists. eexists. split; [exact Hbuilt|]. split; [reflexivity|].
  eapply (registry_keys_are_valid_names _ _ _ _ "latency"%string _ Hbuilt).
  reflexivity.
Defined.

(** [createValueRecorder] validates the name before it looks at the
    boundaries: an error of the name check is the error of the call whatever
    the boundaries configuration is; with a good name, an error of [create]
    on the configuration is the error of the call; and when the call
    returns, the meter has received the resolved boundaries, the unit, and
    the description, which for a unit given without description is the unit
    behind the word in. *)
Theorem createValueRecorder_checks_name_first :
  forall roundTo Number_toString JSON_quote this options config,
    (forall e,
        Telemetry.getOptions JSON_quote this options = Throw e ->
        Telemetry.createValueRecorder roundTo Number_toString JSON_quote
          this options config = Throw e) /\
    (forall parsed e,
        Telemetry.getOptions JSON_quote this options = Ok parsed ->
        create roundTo Number_toString JSON_quote config = Throw e ->
        Telemetry.createValueRecorder roundTo Number_toString JSON_quote
          this options config = Throw e) /\
    (forall metric this' class name metricOptions,
        Telemetry.createValueRecorder roundTo Number_toString JSON_quote
          this options config
          = Ok (metric, this', Telemetry.Meter_create class name metricOptions) ->
        create roundTo Number_toString JSON_quote config
          = Ok (Telemetry.sdk_boundaries metricOptions) /\
        Telemetry.sdk_unit metricOptions = Telemetry.unit options /\
        Telemetry.sdk_description metricOptions
          = match Telemetry.description options, Telemetry.unit options with
            | Some d, _ => Some d
            | None, Some (String c u) => Some ("in " ++ String c u)%string
            | None, other => other
            end).
Proof.
  intros roundTo Number_toString JSON_quote this options config.
  unfold Telemetry.createValueRecorder, Telemetry.getValueOptions,
    Telemetry.getBoundaries.
  split; [|split].
  - by intros e ->.
  - intros [[name labels] o] e -> Hcreate. cbn [bind]. by rewrite Hcreate.
  - intros metric this' class name metricOptions.
    unfold Telemetry.getOptions.
    destruct (Telemetry.validateName _ _ _) as [n|e]; [|done]. cbn [bind].
    destruct (create _ _ _ config) as [boundaries|e]; [|done]. cbn [bind].
    unfold Telemetry.register. intros [= _ _ _ _ <-]. cbn.
    split; [done|]. split; [done|].
    by destruct (Telemetry.description options), (Telemetry.unit options) as [[|c u]|].
Qed.

Lemma createValueRecorder_checks_name_first_witness :
  Telemetry.createValueRecorder (fun x => x) (fun _ => EmptyString) (fun s => s)
    (Telemetry.new_Telemetry None)
    {| Telemetry.prefix := None; Telemetry.name := "2fast";
       Telemetry.description := None; Telemetry.unit := None;
       Telemetry.labels := None |}%string
    (CPrimitive PNull)
    = Throw (AssertionError "Invalid name 2fast").
Proof.
  apply (proj1 (createValueRecorder_checks_name_first
                  (fun x => x) (fun _ => EmptyString) (fun s => s)
                  (Telemetry.new_Telemetry None)
                  {| Telemetry.prefix := None; Telemetry.name := "2fast";
                     Telemetry.description := None; Telemetry.unit := None;
                     Telemetry.labels := None |}%string
                  (CPrimitive PNull))).
  reflexivity.
Defined.

(** ** The metric facades *)

Lemma lookup_spread a b key :
  Facades.spread a b !! key
    = first_defined [default ∅ b !! key; default ∅ a !! key].
Proof.
  unfold Facades.spread. rewrite lookup_union. cbn.
  by destruct (default ∅ b !! key), (default ∅ a !! key).
Qed.

(** Labels given closer to the observation win: an update with labels on a
    facade obtained by [bind] binds the instrument with, for every key, the
    label of the call, else the label given to [bind], else the label of the
    facade; [bind] without labels is the facade itself.  A timer with start
    labels, end labels or both records with, for every key, the end label,
    else the start label, else the label of the facade, and a timer with
    neither records as an update without labels does. *)
Theorem nearest_labels_win :
  forall this value,
    Facades.bind this None = this /\
    (forall bindLabels callLabels,
        exists used,
          Facades.update (Facades.bind this (Some bindLabels)) value (Some callLabels)
            = (value, Facades.bind this (Some bindLabels),
               [Facades.Sdk_bind used;
                Facades.Bound_call (Facades.kUpdate_method (Facades.base this))
                  used value]) /\
          forall key,
            used !! key
              = first_defined [callLabels !! key; bindLabels !! key;
                               default ∅ (Facades.kLabels this) !! key]) /\
    (forall startLabels endLabels,
        match startLabels, endLabels with
        | None, None =>
            Facades.startTimer this None value None = Facades.update this value None
        | _, _ =>
            exists used,
              Facades.startTimer this startLabels value endLabels
                = (value, this,
                   [Facades.Sdk_bind used;
                    Facades.Bound_call (Facades.kUpdate_method (Facades.base this))
                      used value]) /\
              forall key,
                used !! key
                  = first_defined [default ∅ endLabels !! key;
                                   default ∅ startLabels !! key;
                                   default ∅ (Facades.kLabels this) !! key]
        end).
Proof.
  intros this value. split; [done|]. split.
  - intros bindLabels callLabels.
    eexists. split; [reflexivity|]. intros key.
    unfold Facades.getLabels, Facades.bind.
    cbn [Facades.kLabels Facades.new_ObservableMetric].
    unfold Facades.getLabels. rewrite !lookup_spread.
    cbn [default from_option id first_defined]. rewrite lookup_spread.
    cbn [default from_option id first_defined].
    by destruct (callLabels !! key), (bindLabels !! key),
      (default ∅ (Facades.kLabels this) !! key).
  - intros [startLabels|] [endLabels|]; [| | |reflexivity];
      (eexists; split; [reflexivity|]); intros key;
      unfold Facades.getLabels, Facades.mergeLabels; rewrite !lookup_spread;
      cbn [default from_option id first_defined]; rewrite ?lookup_spread;
      cbn [default from_option id first_defined]; rewrite ?lookup_empty.
    + by destruct (endLabels !! key), (startLabels !! key),
        (default ∅ (Facades.kLabels this) !! key).
    + by destruct (startLabels !! key), (default ∅ (Facades.kLabels this) !! key).
    + by destruct (endLabels !! key), (default ∅ (Facades.kLabels this) !! key).
Qed.

Lemma updates_without_labels_bound this bound values :
  Facades.kBound this = Some bound ->
  updates_without_labels this values
    = (this,
       map (Facades.Bound_call (Facades.kUpdate_method (Facades.base this)) bound)
         values).
Proof.
  intros Hbound. induction values as [|value values IH]; [done|].
  cbn [updates_without_labels]. unfold Facades.update. rewrite Hbound.
  by rewrite IH.
Qed.

(** Updates without labels bind the instrument once: on a facade that has
    not bound yet, a run of such updates makes one [bind] call, with the
    facade's own labels, and then sends every value, in order, to the
    instrument that call returned, which the facade keeps.  An update with
    labels in between binds again for itself and leaves the facade as it
    is. *)
Theorem updates_without_labels_bind_once :
  forall this value values,
    Facades.kBound this = None ->
    let bound := Facades.getLabels this None in
    let method := Facades.kUpdate_method (Facades.base this) in
    updates_without_labels this (value :: values)
      = ({| Facades.base := Facades.base this; Facades.name := Facades.name this;
            Facades.kLabels := Facades.kLabels this;
            Facades.kBound := Some bound |},
         Facades.Sdk_bind bound
           :: map (Facades.Bound_call method bound) (value :: values)) /\
    (forall labels other,
        snd (fst (Facades.update this other (Some labels))) = this).
Proof.
  intros this value values Hfresh bound method. split; [|done].
  cbn [updates_without_labels]. unfold Facades.update at 1. rewrite Hfresh.
  by rewrite (updates_without_labels_bound _ bound).
Qed.

Lemma updates_without_labels_bind_once_witness :
  let this :=
    Facades.new_ObservableMetric Facades.BaseCounterMetric "hits"%string
      (Some {[ "service"%string := "api"%string ]}) in
  snd (updates_without_labels this [of_Z 1; of_Z 4])
  = [Facades.Sdk_bind (Facades.getLabels this None);
     Facades.Bound_call Facades.add_method (Facades.getLabels this None) (of_Z 1);
     Facades.Bound_call Facades.add_method (Facades.getLabels this None) (of_Z 4)].
Proof.
  intros this.
  rewrite (proj1 (updates_without_labels_bind_once this (of_Z 1) [of_Z 4] eq_refl)).
  reflexivity.
Defined.

(** [dec] hands the negated amount to the instrument and returns the amount
    it was given, 1 when none was given; it binds and keeps the instrument
    exactly as the update of the negated amount does. *)
Theorem dec_sends_negated_amount :
  forall this labels,
    (forall q,
        exists sent,
          (sent == - q)%Q /\
          Facades.dec this (Some (Finite q)) labels
            = (Finite q,
               snd (fst (Facades.update this (Finite sent) labels)),
               snd (Facades.update this (Finite sent) labels))) /\
    Facades.dec this None labels
      = (of_Z 1,
         snd (fst (Facades.update this (of_Z (-1)) labels)),
         snd (Facades.update this (of_Z (-1)) labels)) /\
    Facades.add this None labels = Facades.update this (of_Z 1) labels.
Proof.
  intros this labels. split; [|split].
  - intros q. exists (q * inject_Z (-1))%Q. split; [unfold inject_Z; ring|].
    unfold Facades.dec. cbn [default from_option id mul of_Z].
    by destruct (Facades.update this _ labels) as [[? ?] ?].
  - unfold Facades.dec. cbn [default from_option id].
    change (mul (of_Z 1) (of_Z (-1))) with (of_Z (-1)).
    by destruct (Facades.update this _ labels) as [[? ?] ?].
  - reflexivity.
Qed.
